(** * OAuth session orchestration: a shallow embedding and its properties

    The module under study keeps a process-wide [Map] from state tokens to
    session objects, evicts entries lazily, and drives an OAuth callback
    through a token exchange performed by an external collaborator.

    Conventions of the embedding:
    - JavaScript strings are byte strings holding their UTF-8 encoding;
      every character the code inspects is ASCII, and an ASCII byte never
      occurs inside a multi-byte UTF-8 sequence.
    - [Date.now()] readings are integers (milliseconds), passed explicitly.
    - Session objects live in a heap and the [Map] stores references, so
      that [session.result = ...] mutates the object every holder sees.
    - The [async] function is split at its [await]: a synchronous prefix,
      then a continuation run when the collaborators have settled. *)

From Stdlib Require Import ZArith Ascii String List Lia.
From stdpp Require Import base gmap strings list fin_maps.

#[local] Open Scope string_scope.
#[local] Open Scope Z_scope.

(** ** JavaScript values the module observes *)

(** A request parameter: [undefined] (or [null]) is [None]. *)
Abbreviation jsparam := (option string).

(** Truthiness of a parameter: [undefined] and the empty string are falsy. *)
Definition truthy (p : jsparam) : bool :=
  match p with
  | Some (String _ _) => true
  | _ => false
  end.

(** [a || b] on parameters. *)
Definition js_or (a b : jsparam) : jsparam :=
  if truthy a then a else b.

(** What a template literal prints for a parameter. *)
Definition param_text (p : jsparam) : string :=
  match p with
  | Some s => s
  | None => "undefined"
  end.

(** The numeric built-ins of the host that [resolveServerPort] calls.  A
    JavaScript number is an IEEE double; the module only asks whether it is
    finite, parses one with [Number.parseInt(_, 10)] and prints it inside a
    template literal, so these operations are an interface of the host. *)
Class JsRuntime := {
  number : Type;
  Number_isFinite : number → bool;
  Number_parseInt10 : string → number;
  Number_toString : number → string;
  number_literal : Z → number;
  String_trim : string → string
}.

Section Values.
Context `{JsRuntime}.

(** Configuration values: just enough of the value universe for
    [config?.server?.port] and the [typeof] tests. *)
Inductive jsvalue :=
| VUndefined
| VNull
| VBool (b : bool)
| VNumber (n : number)
| VString (s : string)
| VObject (fields : jsfields)
with jsfields :=
| FNil
| FCons (k : string) (v : jsvalue) (rest : jsfields).

(** Own-property read: the first binding of the key, else [undefined]. *)
Fixpoint assoc_get (fields : jsfields) (k : string) : jsvalue :=
  match fields with
  | FNil => VUndefined
  | FCons k' v rest => if String.eqb k k' then v else assoc_get rest k
  end.

(** [v?.k]: short-circuits on a nullish receiver; a primitive receiver has
    no own property [k] (neither [server] nor [port] is inherited). *)
Definition opt_get (v : jsvalue) (k : string) : jsvalue :=
  match v with
  | VObject fields => assoc_get fields k
  | _ => VUndefined
  end.

End Values.

(** ** Data model *)

Definition SESSION_TTL_MS : Z := 30 * 60 * 1000.

Record Result := mkResult { success : bool; message : string }.

Record Session := mkSession {
  createdAt : Z;
  redirectUri : string;
  result : option Result
}.

Definition loc := nat.

(** What a slot of the [sessions] map may hold: a reference to a session
    object, or some falsy value. *)
Inductive entry :=
| EFalsy
| ERef (l : loc).

(** The module state: the [sessions] map, the objects it refers to, and the
    next unused object identity. *)
Record World := mkWorld {
  sessions : gmap string entry;
  heap : loc → Session;
  next_loc : loc
}.

(** [const sessions = new Map()]: the store when the module is loaded.  No
    object is allocated yet; what the heap holds at an unallocated identity
    is never read. *)
Definition no_session : Session := mkSession 0 EmptyString None.

Definition empty_world : World := mkWorld ∅ (fun _ => no_session) 0%nat.

Definition heap_set (h : loc → Session) (l : loc) (s : Session) : loc → Session :=
  fun l' => if Nat.eqb l' l then s else h l'.

(** [sessions.get(state)]: a missing key reads as [undefined]. *)
Definition sessions_get (w : World) (state : jsparam) : entry :=
  match state with
  | Some k => default EFalsy (sessions w !! k)
  | None => EFalsy
  end.

(** ** cleanupExpiredSessions *)

(** The guard
    [!session || !session.createdAt || now - session.createdAt > SESSION_TTL_MS]. *)
Definition is_stale (now : Z) (h : loc → Session) (e : entry) : bool :=
  match e with
  | EFalsy => true
  | ERef l =>
      Z.eqb (createdAt (h l)) 0 || Z.ltb SESSION_TTL_MS (now - createdAt (h l))
  end.

(** The loop deletes every entry for which the guard holds; deleting during
    iteration of a [Map] is well defined and the outcome does not depend on
    the visiting order. *)
Definition cleanupExpiredSessions (now : Z) (w : World) : World :=
  {| sessions := filter (λ kv, is_stale now (heap w) kv.2 = false) (sessions w);
     heap := heap w;
     next_loc := next_loc w |}.

(** ** getOAuthStatus *)

Record StatusPayload := mkStatus {
  status : string;
  status_success : option bool;
  status_message : option string
}.

Definition status_expired : StatusPayload :=
  mkStatus "expired" None (Some "OAuth state not found or expired").

Definition status_pending : StatusPayload :=
  mkStatus "pending" None None.

(** [{ status: "completed", ...session.result }] *)
Definition status_completed (r : Result) : StatusPayload :=
  mkStatus "completed" (Some (success r)) (Some (message r)).

Definition getOAuthStatus (now : Z) (state : jsparam) (w : World)
  : StatusPayload * World :=
  let w1 := cleanupExpiredSessions now w in
  match sessions_get w1 state with
  | EFalsy => (status_expired, w1)
  | ERef l =>
      match result (heap w1 l) with
      | Some r => (status_completed r, w1)
      | None => (status_pending, w1)
      end
  end.

(** ** String built-ins used by the module *)

Definition dquote : ascii := "034"%char.

(** [s.replaceAll(pat, by)] for a one-character pattern, the only form the
    module uses. *)
Fixpoint replaceAll (pat : ascii) (by_ : string) (s : string) : string :=
  match s with
  | EmptyString => EmptyString
  | String c s' =>
      if Ascii.eqb c pat then by_ +:+ replaceAll pat by_ s'
      else String c (replaceAll pat by_ s')
  end.

(** Occurrence of a character in a string. *)
Fixpoint occurs (c : ascii) (s : string) : bool :=
  match s with
  | EmptyString => false
  | String c' s' => Ascii.eqb c' c || occurs c s'
  end.

(** *** application/x-www-form-urlencoded, as [URLSearchParams.toString] *)

Definition hex_upper (n : N) : ascii :=
  match n with
  | 0%N => "0" | 1%N => "1" | 2%N => "2" | 3%N => "3"
  | 4%N => "4" | 5%N => "5" | 6%N => "6" | 7%N => "7"
  | 8%N => "8" | 9%N => "9" | 10%N => "A" | 11%N => "B"
  | 12%N => "C" | 13%N => "D" | 14%N => "E" | _ => "F"
  end%char.

Definition in_range (lo hi : N) (c : ascii) : bool :=
  (N.leb lo (N_of_ascii c) && N.leb (N_of_ascii c) hi)%bool.

Definition is_alnum (c : ascii) : bool :=
  in_range 48 57 c || in_range 65 90 c || in_range 97 122 c.

(** Bytes the serializer leaves as they are: alphanumerics and [*-._]. *)
Definition form_safe (c : ascii) : bool :=
  is_alnum c
  || Ascii.eqb c "*" || Ascii.eqb c "-" || Ascii.eqb c "." || Ascii.eqb c "_".

Definition form_encode_byte (c : ascii) : string :=
  if form_safe c then String c EmptyString
  else if Ascii.eqb c " " then "+"
  else String "%" (String (hex_upper (N_of_ascii c / 16))
                    (String (hex_upper (N_of_ascii c mod 16)) EmptyString)).

Fixpoint form_encode (s : string) : string :=
  match s with
  | EmptyString => EmptyString
  | String c s' => form_encode_byte c +:+ form_encode s'
  end.

(** [params.toString()]: [name=value] tuples in insertion order, joined
    by [&]. *)
Fixpoint URLSearchParams_toString (params : list (string * string)) : string :=
  match params with
  | [] => EmptyString
  | [(k, v)] => form_encode k +:+ "=" +:+ form_encode v
  | (k, v) :: rest =>
      form_encode k +:+ "=" +:+ form_encode v +:+ "&"
        +:+ URLSearchParams_toString rest
  end.

(** *** The receiving side: the urlencoded parser

    This is what the authorization endpoint applies to the query string;
    it is used only to state what the query string contains. *)

Definition hex_value (c : ascii) : option N :=
  if in_range 48 57 c then Some (N_of_ascii c - 48)%N
  else if in_range 65 70 c then Some (N_of_ascii c - 55)%N
  else if in_range 97 102 c then Some (N_of_ascii c - 87)%N
  else None.

Fixpoint form_decode (s : string) : string :=
  match s with
  | EmptyString => EmptyString
  | String c s' =>
      if Ascii.eqb c "+" then String " " (form_decode s')
      else if Ascii.eqb c "%" then
        match s' with
        | String a (String b rest) =>
            match hex_value a, hex_value b with
            | Some x, Some y =>
                String (ascii_of_N (16 * x + y)) (form_decode rest)
            | _, _ => String c (form_decode s')
            end
        | _ => String c (form_decode s')
        end
      else String c (form_decode s')
  end.

(** Split at every occurrence of a separator character. *)
Fixpoint split_on (sep : ascii) (s : string) : list string :=
  match s with
  | EmptyString => [EmptyString]
  | String c s' =>
      if Ascii.eqb c sep then EmptyString :: split_on sep s'
      else match split_on sep s' with
           | [] => [String c EmptyString]
           | seg :: segs => String c seg :: segs
           end
  end.

(** Split at the first [=]; a segment without one is a name with an empty
    value. *)
Fixpoint split_pair (s : string) : string * string :=
  match s with
  | EmptyString => (EmptyString, EmptyString)
  | String c s' =>
      if Ascii.eqb c "=" then (EmptyString, s')
      else let '(k, v) := split_pair s' in (String c k, v)
  end.

Definition parse_segment (seg : string) : option (string * string) :=
  match seg with
  | EmptyString => None
  | _ => let '(k, v) := split_pair seg in Some (form_decode k, form_decode v)
  end.

Definition parse_query (q : string) : list (string * string) :=
  omap parse_segment (split_on "&" q).

(** *** [JSON.stringify] on the payload object *)

Definition hex_lower (n : N) : ascii :=
  match n with
  | 0%N => "0" | 1%N => "1" | 2%N => "2" | 3%N => "3"
  | 4%N => "4" | 5%N => "5" | 6%N => "6" | 7%N => "7"
  | 8%N => "8" | 9%N => "9" | 10%N => "a" | 11%N => "b"
  | 12%N => "c" | 13%N => "d" | 14%N => "e" | _ => "f"
  end%char.

(** QuoteJSONString on one byte: quote and backslash get a backslash,
    control characters their short or [\u00XX] form. *)
Definition json_escape_byte (c : ascii) : string :=
  if Ascii.eqb c dquote then String "\" (String dquote EmptyString)
  else if Ascii.eqb c "\" then "\\"
  else if Ascii.eqb c "008" then "\b"
  else if Ascii.eqb c "009" then "\t"
  else if Ascii.eqb c "010" then "\n"
  else if Ascii.eqb c "012" then "\f"
  else if Ascii.eqb c "013" then "\r"
  else if N.ltb (N_of_ascii c) 32 then
    "\u00" +:+ String (hex_lower (N_of_ascii c / 16))
                 (String (hex_lower (N_of_ascii c mod 16)) EmptyString)
  else String c EmptyString.

Fixpoint json_escape (s : string) : string :=
  match s with
  | EmptyString => EmptyString
  | String c s' => json_escape_byte c +:+ json_escape s'
  end.

Definition json_string (s : string) : string :=
  String dquote (json_escape s) +:+ String dquote EmptyString.

Definition json_bool (b : bool) : string :=
  if b then "true" else "false".

(** ** escapeHtml *)

(** The argument as a string (the empty string when it is falsy), followed
    by the five replacements in the order of the source. *)
Definition escapeHtml (str : jsparam) : string :=
  replaceAll "'" "&#39;"
    (replaceAll dquote "&quot;"
      (replaceAll ">" "&gt;"
        (replaceAll "<" "&lt;"
          (replaceAll "&" "&amp;"
            (param_text (js_or str (Some EmptyString))))))).

(** ** resolveServerPort *)

Section Initiator.
Context `{JsRuntime}.

Definition nonempty (s : string) : bool :=
  match s with
  | EmptyString => false
  | String _ _ => true
  end.

Definition resolveServerPort (config : jsvalue) : number :=
  let rawPort := opt_get (opt_get config "server") "port" in
  match rawPort with
  | VNumber n =>
      if Number_isFinite n then n else number_literal 3000
  | VString s =>
      if nonempty (String_trim s) then
        let parsed := Number_parseInt10 (String_trim s) in
        if Number_isFinite parsed then parsed else number_literal 3000
      else number_literal 3000
  | _ => number_literal 3000
  end.

(** ** buildAuthUrl *)

Definition scopes : list string :=
  [ "https://www.googleapis.com/auth/cloud-platform";
    "https://www.googleapis.com/auth/userinfo.email";
    "https://www.googleapis.com/auth/userinfo.profile";
    "https://www.googleapis.com/auth/cclog";
    "https://www.googleapis.com/auth/experimentsandconfigs" ].

(** [Array.prototype.join] *)
Fixpoint join (sep : string) (parts : list string) : string :=
  match parts with
  | [] => EmptyString
  | [p] => p
  | p :: rest => p +:+ sep +:+ join sep rest
  end.

Definition auth_endpoint : string :=
  "https://accounts.google.com/o/oauth2/v2/auth".

(** The object literal handed to [URLSearchParams], keys in source order.
    [clientId] comes from [httpClient.getOAuthClient()]. *)
Definition auth_params (clientId state redirectUri : string)
  : list (string * string) :=
  [ ("access_type", "offline");
    ("scope", join " " scopes);
    ("state", state);
    ("prompt", "consent");
    ("response_type", "code");
    ("client_id", clientId);
    ("redirect_uri", redirectUri) ].

Definition buildAuthUrl (clientId state redirectUri : string) : string :=
  auth_endpoint +:+ "?"
    +:+ URLSearchParams_toString (auth_params clientId state redirectUri).

(** ** startOAuthSession *)

Record StartResult := mkStart {
  state : string;
  auth_url : string;
  redirect_uri : string;
  expires_in_ms : Z
}.

(** [now1] is the clock reading inside [cleanupExpiredSessions], [now2] the
    one stored as [createdAt]; [fresh] is what [createState()] returned. *)
Definition startOAuthSession (now1 now2 : Z) (clientId fresh : string)
    (config : jsvalue) (w : World) : StartResult * World :=
  let w1 := cleanupExpiredSessions now1 w in
  let port := resolveServerPort config in
  let redirectUri :=
    "http://localhost:" +:+ Number_toString port +:+ "/oauth-callback" in
  let state := fresh in
  let authUrl := buildAuthUrl clientId state redirectUri in
  let l := next_loc w1 in
  let w2 :=
    {| sessions := <[state := ERef l]> (sessions w1);
       heap := heap_set (heap w1) l (mkSession now2 redirectUri None);
       next_loc := S l |} in
  (mkStart state authUrl redirectUri SESSION_TTL_MS, w2).

End Initiator.

(** ** completeOAuthCallback *)

(** The [authManager] argument: an object, or [undefined] or [null].  In
    the latter case reading [authManager.apiLimiter] raises a [TypeError];
    the message the host gives that error is carried along. *)
Inductive AuthManagerArg :=
| AuthManagerObject
| AuthManagerNullish (type_error_message : string).

Record CallbackArgs := mkArgs {
  arg_state : jsparam;
  arg_code : jsparam;
  arg_error : jsparam;
  arg_errorDescription : jsparam;
  arg_authManager : AuthManagerArg
}.

(** [String(e)] for a [TypeError] with the given message. *)
Definition type_error_string (msg : string) : string :=
  match msg with
  | EmptyString => "TypeError"
  | _ => "TypeError: " +:+ msg
  end.

(** A value a collaborator may reject with.  [ThrownValue m s] is any value
    [e] on which [e.message] reads [m] and [String(e)] is [s] (an [Error],
    a string, ...); [ThrownNullish] is [undefined] or [null]. *)
Inductive Thrown :=
| ThrownNullish
| ThrownValue (e_message : jsparam) (e_string : string).

Inductive Settled (A : Type) :=
| Fulfilled (a : A)
| Rejected (e : Thrown).
Arguments Fulfilled {A} a.
Arguments Rejected {A} e.

(** Credentials are opaque to the module: it hands them from one
    collaborator to the other. *)
Definition Creds := string.

(** The collaborators behind [httpClient.exchangeCodeForToken] and the
    [addAccount] method of an [authManager] object.  Each call either
    fulfils or rejects. *)
Record Collaborators := mkCollab {
  exchangeCodeForToken : string → string → Settled Creds;
  addAccount : Creds → Settled unit
}.

(** The two awaited calls inside the [try] block. *)
Definition collaborate (c : Collaborators) (code uri : string) : Settled unit :=
  match exchangeCodeForToken c code uri with
  | Fulfilled creds => addAccount c creds
  | Rejected e => Rejected e
  end.

(** [session.result = result; sessions.set(state, session)] *)
Definition record_result (w : World) (st : string) (l : loc) (r : Result)
  : World :=
  {| sessions := <[st := ERef l]> (sessions w);
     heap := heap_set (heap w) l
               (mkSession (createdAt (heap w l)) (redirectUri (heap w l))
                  (Some r));
     next_loc := next_loc w |}.

(** A callback parked at its [await]: the arguments it passed to
    [exchangeCodeForToken], and the [state] and [session] it captured. *)
Record Suspended := mkSuspended {
  x_code : string;
  x_redirectUri : string;
  x_state : string;
  x_session : loc
}.

(** How a call ends: a returned value, or the [TypeError] raised by reading
    [e.message] on a nullish [e] inside the [catch] block. *)
Inductive Completion :=
| Returned (r : Result)
| ThrewTypeError.

(** The synchronous prefix, up to the call of [exchangeCodeForToken].  The
    arguments of that call are evaluated first: with a nullish
    [authManager], reading [authManager.apiLimiter] throws inside the [try]
    block, the function is not called, and the [catch] block records the
    failure at once. *)
Definition callback_enter (now : Z) (a : CallbackArgs) (w : World)
  : (Result + Suspended) * World :=
  let w1 := cleanupExpiredSessions now w in
  if negb (truthy (arg_state a)) then
    (inl (mkResult false "Missing state"), w1)
  else
    match sessions_get w1 (arg_state a) with
    | EFalsy => (inl (mkResult false "OAuth state not found or expired"), w1)
    | ERef l =>
        let st := param_text (arg_state a) in
        if truthy (arg_error a) then
          let r := mkResult false
                     ("授权失败: "
                        +:+ param_text (js_or (arg_errorDescription a) (arg_error a))) in
          (inl r, record_result w1 st l r)
        else if negb (truthy (arg_code a)) then
          let r := mkResult false "Missing code" in
          (inl r, record_result w1 st l r)
        else
          match arg_authManager a with
          | AuthManagerObject =>
              (inr (mkSuspended (param_text (arg_code a))
                      (redirectUri (heap w1 l)) st l),
               w1)
          | AuthManagerNullish msg =>
              let r := mkResult false
                         ("获取 token 失败: "
                            +:+ param_text
                                  (js_or (Some msg)
                                     (Some (type_error_string msg)))) in
              (inl r, record_result w1 st l r)
          end
    end.

(** The continuation: the rest of the [try] block, or the [catch] block. *)
Definition callback_settle (k : Suspended) (o : Settled unit) (w : World)
  : Completion * World :=
  match o with
  | Fulfilled _ =>
      let r := mkResult true "授权成功" in
      (Returned r, record_result w (x_state k) (x_session k) r)
  | Rejected ThrownNullish => (ThrewTypeError, w)
  | Rejected (ThrownValue m s) =>
      let r := mkResult false
                 ("获取 token 失败: " +:+ param_text (js_or m (Some s))) in
      (Returned r, record_result w (x_state k) (x_session k) r)
  end.

(** A whole call with nothing interleaved at the [await]; the third
    component lists the token exchanges the call started. *)
Definition completeOAuthCallback (now : Z) (a : CallbackArgs)
    (c : Collaborators) (w : World) : Completion * World * list Suspended :=
  match callback_enter now a w with
  | (inl r, w1) => (Returned r, w1, [])
  | (inr k, w1) =>
      let '(out, w2) :=
        callback_settle k (collaborate c (x_code k) (x_redirectUri k)) w1 in
      (out, w2, [k])
  end.

(** Calls made one after the other, each with its own clock reading,
    arguments and collaborator behaviour. *)
Fixpoint run_callbacks (calls : list (Z * CallbackArgs * Collaborators))
    (w : World) : list Completion * World * list Suspended :=
  match calls with
  | [] => ([], w, [])
  | (now, a, c) :: rest =>
      let '(out, w1, xs) := completeOAuthCallback now a c w in
      let '(outs, w2, ys) := run_callbacks rest w1 in
      (out :: outs, w2, (xs ++ ys)%list)
  end.

(** ** renderOAuthResultPage *)

Definition quot : string := String dquote EmptyString.

Definition glue (parts : list string) : string :=
  fold_right String.append EmptyString parts.

(** The literal text of the template, cut at its six interpolations. *)
Definition page_upto_title : string :=
  glue
    [ "<!DOCTYPE html>
<html lang=";
      quot;
      "zh-CN";
      quot;
      ">
<head>
  <meta charset=";
      quot;
      "UTF-8";
      quot;
      " />
  <meta name=";
      quot;
      "viewport";
      quot;
      " content=";
      quot;
      "width=device-width, initial-scale=1.0";
      quot;
      " />
  <title>" ].

Definition page_upto_badge_class : string :=
  glue
    [ "</title>
  <style>
    body { font-family: -apple-system, BlinkMacSystemFont, ";
      quot;
      "Segoe UI";
      quot;
      ", Roboto, Helvetica, Arial, sans-serif; background: #0b1220; color: #e6edf3; margin: 0; min-height: 100vh; display: flex; align-items: center; justify-content: center; }
    .card { width: min(520px, 92vw); background: #111a2e; border: 1px solid rgba(255,255,255,0.08); border-radius: 16px; padding: 28px; box-shadow: 0 16px 40px rgba(0,0,0,0.5); }
    .badge { display: inline-flex; align-items: center; gap: 8px; padding: 6px 12px; border-radius: 999px; font-weight: 600; font-size: 13px; letter-spacing: .2px; }
    .badge.success { background: rgba(34, 197, 94, 0.15); color: #4ade80; border: 1px solid rgba(34, 197, 94, 0.35); }
    .badge.error { background: rgba(239, 68, 68, 0.12); color: #f87171; border: 1px solid rgba(239, 68, 68, 0.35); }
    h1 { margin: 14px 0 10px; font-size: 22px; }
    p { margin: 0 0 14px; line-height: 1.6; color: rgba(230,237,243,0.85); }
    .hint { font-size: 13px; color: rgba(230,237,243,0.6); }
    .btn { margin-top: 18px; width: 100%; padding: 12px 14px; border-radius: 10px; border: 1px solid rgba(255,255,255,0.12); background: rgba(255,255,255,0.06); color: #e6edf3; cursor: pointer; font-size: 14px; }
    .btn:hover { background: rgba(255,255,255,0.10); }
  </style>
</head>
<body>
  <div class=";
      quot;
      "card";
      quot;
      ">
    <div class=";
      quot;
      "badge " ].

Definition page_upto_badge_text : string :=
  glue
    [ quot;
      ">OAuth " ].

Definition page_upto_heading : string :=
  glue
    [ "</div>
    <h1>" ].

Definition page_upto_message : string :=
  glue
    [ "</h1>
    <p>" ].

Definition page_upto_payload : string :=
  glue
    [ "</p>
    <p class=";
      quot;
      "hint";
      quot;
      " id=";
      quot;
      "countdown";
      quot;
      ">窗口将在 3 秒后自动关闭</p>
    <button class=";
      quot;
      "btn";
      quot;
      " onclick=";
      quot;
      "closeWindow()";
      quot;
      ">关闭窗口</button>
  </div>
  <script>
    const payload = " ].

Definition page_rest : string :=
  glue
    [ ";

    try {
      if (window.opener && !window.opener.closed) {
        window.opener.postMessage(payload, window.location.origin);
      }
    } catch (e) {}

    function closeWindow() {
      window.close();
      setTimeout(() => {
        if (!window.closed) {
          document.getElementById('countdown').textContent = '请手动关闭此窗口';
        }
      }, 100);
    }

    let t = 3;
    const el = document.getElementById('countdown');
    const timer = setInterval(() => {
      t -= 1;
      if (t > 0) {
        el.textContent = '窗口将在 ' + t + ' 秒后自动关闭';
      } else {
        clearInterval(timer);
        closeWindow();
      }
    }, 1000);
  </script>
</body>
</html>" ].

(** [JSON.stringify(payload)] with every [<] replaced by the six
    characters [\u003c]; the payload has the keys [type], [state] (or the
    empty string), [success] (as a boolean) and [message] (or the empty
    string), in this order. *)
Definition payloadJson (success : bool) (message state : jsparam) : string :=
  replaceAll "<" "\u003c"
    (glue
      [ "{"; json_string "type"; ":"; json_string "oauth_result"; ",";
        json_string "state"; ":";
        json_string (param_text (js_or state (Some EmptyString))); ",";
        json_string "success"; ":"; json_bool success; ",";
        json_string "message"; ":";
        json_string (param_text (js_or message (Some EmptyString))); "}" ]).

Definition renderOAuthResultPage (success : bool) (message state : jsparam)
  : string :=
  let safeMessage := escapeHtml message in
  let title := if success then "OAuth 授权成功" else "OAuth 授权失败" in
  let statusClass := if success then "success" else "error" in
  let statusText := if success then "成功" else "失败" in
  glue
    [ page_upto_title; title;
      page_upto_badge_class; statusClass;
      page_upto_badge_text; statusText;
      page_upto_heading; title;
      page_upto_message; safeMessage;
      page_upto_payload; payloadJson success message state;
      page_rest ].

(** ** The payload, as the page's script and its opener see it *)

(** How one character of a string value is meant to appear inside the
    inline script: [<] as the six characters [\u003c], the double quote and
    the backslash behind a backslash, a control character as the escape
    [JSON.stringify] writes for it, any other character as itself.  This
    follows the description of the page, not the code; the two are compared
    in the theorem on the result page. *)
Definition script_char (c : ascii) : string :=
  if Ascii.eqb c "<" then "\u003c"
  else if Ascii.eqb c dquote then String "\" (String dquote EmptyString)
  else if Ascii.eqb c "\" then "\\"
  else if Ascii.eqb c "008" then "\b"
  else if Ascii.eqb c "009" then "\t"
  else if Ascii.eqb c "010" then "\n"
  else if Ascii.eqb c "012" then "\f"
  else if Ascii.eqb c "013" then "\r"
  else if N.ltb (N_of_ascii c) 32 then
    "\u00" +:+ String (hex_lower (N_of_ascii c / 16))
                 (String (hex_lower (N_of_ascii c mod 16)) EmptyString)
  else String c EmptyString.

Fixpoint script_text (s : string) : string :=
  match s with
  | EmptyString => EmptyString
  | String c s' => script_char c +:+ script_text s'
  end.

(** Reading a JSON string literal from just after its opening quote: the
    text it denotes and what follows its closing quote.  Raw control
    characters are refused; [\uXXXX] is read when it denotes an ASCII
    character (the writer produces no other). *)
Definition read_more (c : ascii) (o : option (string * string))
  : option (string * string) :=
  match o with
  | Some (text, rest) => Some (String c text, rest)
  | None => None
  end.

Definition code_unit (h1 h2 h3 h4 : ascii) : option ascii :=
  match hex_value h1, hex_value h2, hex_value h3, hex_value h4 with
  | Some a, Some b, Some c, Some d =>
      let n := (((a * 16 + b) * 16 + c) * 16 + d)%N in
      if N.ltb n 128 then Some (ascii_of_N n) else None
  | _, _, _, _ => None
  end.

Fixpoint json_read (s : string) : option (string * string) :=
  match s with
  | EmptyString => None
  | String c s' =>
      if Ascii.eqb c dquote then Some (EmptyString, s')
      else if Ascii.eqb c "\" then
        match s' with
        | String e s'' =>
            if Ascii.eqb e dquote then read_more dquote (json_read s'')
            else if Ascii.eqb e "\" then read_more "\" (json_read s'')
            else if Ascii.eqb e "/" then read_more "/" (json_read s'')
            else if Ascii.eqb e "b" then read_more "008" (json_read s'')
            else if Ascii.eqb e "f" then read_more "012" (json_read s'')
            else if Ascii.eqb e "n" then read_more "010" (json_read s'')
            else if Ascii.eqb e "r" then read_more "013" (json_read s'')
            else if Ascii.eqb e "t" then read_more "009" (json_read s'')
            else if Ascii.eqb e "u" then
              match s'' with
              | String h1 (String h2 (String h3 (String h4 t))) =>
                  match code_unit h1 h2 h3 h4 with
                  | Some x => read_more x (json_read t)
                  | None => None
                  end
              | _ => None
              end
            else None
        | EmptyString => None
        end
      else if N.ltb (N_of_ascii c) 32 then None
      else read_more c (json_read s')
  end.

(** Removing a known prefix. *)
Fixpoint strip_prefix (p s : string) : option string :=
  match p with
  | EmptyString => Some s
  | String c p' =>
      match s with
      | String d s' => if Ascii.eqb c d then strip_prefix p' s' else None
      | EmptyString => None
      end
  end.

Definition read_bool (s : string) : option (bool * string) :=
  match strip_prefix "true" s with
  | Some rest => Some (true, rest)
  | None =>
      match strip_prefix "false" s with
      | Some rest => Some (false, rest)
      | None => None
      end
  end.

Definition payload_upto_state : string :=
  Eval vm_compute in
    glue [ "{"; quot; "type"; quot; ":"; quot; "oauth_result"; quot; ",";
           quot; "state"; quot; ":"; quot ].

Definition payload_upto_success : string :=
  Eval vm_compute in glue [ ","; quot; "success"; quot; ":" ].

Definition payload_upto_message : string :=
  Eval vm_compute in glue [ ","; quot; "message"; quot; ":"; quot ].

(** Reading the payload object as the opener receives it: the values of
    [state], [success] and [message] of an object written with the keys
    [type], [state], [success], [message] in this order. *)
Definition read_payload (s : string) : option (string * bool * string) :=
  r1 ← strip_prefix payload_upto_state s;
  '(st, r2) ← json_read r1;
  r3 ← strip_prefix payload_upto_success r2;
  '(b, r4) ← read_bool r3;
  r5 ← strip_prefix payload_upto_message r4;
  '(m, r6) ← json_read r5;
  if String.eqb r6 "}" then Some (st, b, m) else None.

(** ** The module as a reactive system

    Requests arrive one at a time; a callback that reaches its [await] is
    parked, and any other request may run before it is resumed. *)

Section Reactive.
Context `{JsRuntime}.

Record System := mkSystem {
  world : World;
  inflight : list Suspended;
  exchanges : list Suspended
}.

Inductive event :=
| EvStart (now1 now2 : Z) (clientId fresh : string) (config : jsvalue)
| EvStatus (now : Z) (st : jsparam)
| EvCallback (now : Z) (a : CallbackArgs)
| EvSettle (i : nat) (o : Settled unit).

(** [EvSettle i o] resumes the [i]-th parked callback with the outcome [o]
    of its collaborators; it is not enabled when there is no such callback. *)
Definition step (e : event) (s : System) : System :=
  match e with
  | EvStart now1 now2 clientId fresh config =>
      mkSystem (startOAuthSession now1 now2 clientId fresh config (world s)).2
        (inflight s) (exchanges s)
  | EvStatus now st =>
      mkSystem (getOAuthStatus now st (world s)).2 (inflight s) (exchanges s)
  | EvCallback now a =>
      match callback_enter now a (world s) with
      | (inl _, w) => mkSystem w (inflight s) (exchanges s)
      | (inr k, w) => mkSystem w (inflight s ++ [k])%list (exchanges s ++ [k])%list
      end
  | EvSettle i o =>
      match inflight s !! i with
      | Some k =>
          mkSystem (callback_settle k o (world s)).2
            (take i (inflight s) ++ drop (S i) (inflight s))%list (exchanges s)
      | None => s
      end
  end.

Definition run (evs : list event) (s : System) : System :=
  fold_left (fun s e => step e s) evs s.

(** The module right after it is loaded. *)
Definition init : System := mkSystem empty_world [] [].

End Reactive.

(** A host for examples: numbers are integers or [NaN], parsing and printing
    are exact.  It agrees with the real host on port numbers. *)
Module IntegerHost.

Inductive num := NaN | Int (z : Z).

Definition is_digit (c : ascii) : bool := in_range 48 57 c.

Fixpoint digits_value (acc : Z) (s : string) : Z :=
  match s with
  | String c s' =>
      if is_digit c
      then digits_value (10 * acc + Z.of_N (N_of_ascii c - 48)) s'
      else acc
  | EmptyString => acc
  end.

Definition parse_unsigned (s : string) : num :=
  match s with
  | String c _ => if is_digit c then Int (digits_value 0 s) else NaN
  | EmptyString => NaN
  end.

Definition negate (n : num) : num :=
  match n with
  | Int z => Int (- z)
  | NaN => NaN
  end.

Definition parseInt10 (s : string) : num :=
  match s with
  | String "-" s' => negate (parse_unsigned s')
  | String "+" s' => parse_unsigned s'
  | _ => parse_unsigned s
  end.

Fixpoint digits_of (fuel : nat) (n : N) (acc : string) : string :=
  match fuel with
  | O => acc
  | S fuel' =>
      let acc' := String (ascii_of_N (48 + n mod 10)) acc in
      if N.ltb n 10 then acc' else digits_of fuel' (n / 10) acc'
  end.

Definition print_num (n : num) : string :=
  match n with
  | NaN => "NaN"
  | Int z =>
      let d := digits_of (S (N.to_nat (N.log2 (Z.abs_N z)))) (Z.abs_N z) EmptyString in
      if Z.ltb z 0 then String "-" d else d
  end.

Definition is_space (c : ascii) : bool :=
  in_range 9 13 c || Ascii.eqb c " ".

Fixpoint trim_start (s : string) : string :=
  match s with
  | String c s' => if is_space c then trim_start s' else s
  | EmptyString => EmptyString
  end.

Fixpoint trim_end (s : string) : string :=
  match s with
  | String c s' =>
      match trim_end s' with
      | EmptyString => if is_space c then EmptyString else String c EmptyString
      | t => String c t
      end
  | EmptyString => EmptyString
  end.

#[export] Instance host : JsRuntime := {|
  number := num;
  Number_isFinite := fun n => match n with Int _ => true | NaN => false end;
  Number_parseInt10 := parseInt10;
  Number_toString := print_num;
  number_literal := Int;
  String_trim := fun s => trim_end (trim_start s)
|}.

End IntegerHost.

(** * Notions used in the statements *)

(** A session the eviction keeps at time [now]. *)
Definition fresh_at (now : Z) (s : Session) : Prop :=
  createdAt s ≠ 0 ∧ now - createdAt s ≤ SESSION_TTL_MS.

(** Polls made one after the other. *)
Fixpoint poll_all (times : list Z) (st : jsparam) (w : World)
  : list StatusPayload :=
  match times with
  | [] => []
  | t :: ts =>
      let '(p, w1) := getOAuthStatus t st w in
      p :: poll_all ts st w1
  end.

(** The per-call requirements under which a call gets as far as the [try]
    block on the session created at [c] and bound under [k]: the state is
    [k], there is no [error], there is a [code], and the session is within
    its TTL. *)
Definition reaches_exchange (k : string) (c : Z)
    (call : Z * CallbackArgs * Collaborators) : Prop :=
  arg_state call.1.2 = Some k
  ∧ truthy (arg_error call.1.2) = false
  ∧ truthy (arg_code call.1.2) = true
  ∧ call.1.1 - c ≤ SESSION_TTL_MS.

Definition has_authManager (call : Z * CallbackArgs * Collaborators) : bool :=
  match arg_authManager call.1.2 with
  | AuthManagerObject => true
  | AuthManagerNullish _ => false
  end.

(** The exchange such a call starts: one when it is given an [authManager]
    object, none otherwise. *)
Definition exchange_of (u k : string) (l : loc)
    (call : Z * CallbackArgs * Collaborators) : option Suspended :=
  if has_authManager call
  then Some (mkSuspended (param_text (arg_code call.1.2)) u k l)
  else None.

(** Every reference held by the map or by a parked callback denotes an
    allocated object, and every exchange started so far was given the
    redirect URI stored in the session object it was started for. *)
Record consistent (s : System) : Prop := {
  refs_allocated : ∀ k l,
    sessions (world s) !! k = Some (ERef l) → (l < next_loc (world s))%nat;
  inflight_allocated :
    Forall (λ x, (x_session x < next_loc (world s))%nat) (inflight s);
  exchanges_allocated :
    Forall (λ x, (x_session x < next_loc (world s))%nat) (exchanges s);
  exchanges_bound :
    Forall (λ x, x_redirectUri x = redirectUri (heap (world s) (x_session x)))
      (exchanges s)
}.

(** How one step may change what matters here: objects are only added,
    the redirect URI of an existing object is never rewritten, and the log
    of exchanges only grows. *)
Record extends (s s' : System) : Prop := {
  next_loc_mono : (next_loc (world s) ≤ next_loc (world s'))%nat;
  redirectUri_kept : ∀ l,
    (l < next_loc (world s))%nat →
    redirectUri (heap (world s') l) = redirectUri (heap (world s) l);
  exchanges_grow : ∃ new, exchanges s' = (exchanges s ++ new)%list
}.

Section ConfiguredPort.
Context `{JsRuntime}.


End ConfiguredPort.

(** The entity a character is displayed as. *)
Definition html_entity (c : ascii) : string :=
  if Ascii.eqb c "&" then "&amp;"
  else if Ascii.eqb c "<" then "&lt;"
  else if Ascii.eqb c ">" then "&gt;"
  else if Ascii.eqb c dquote then "&quot;"
  else if Ascii.eqb c "'" then "&#39;"
  else String c EmptyString.

(** Escaping as the specification words it: each of the five characters is
    encoded, every other character is kept. *)
Fixpoint escape_chars (s : string) : string :=
  match s with
  | EmptyString => EmptyString
  | String c s' => html_entity c +:+ escape_chars s'
  end.

(** The five replacements applied in sequence. *)
Definition five_replacements (s : string) : string :=
  replaceAll "'" "&#39;"
    (replaceAll dquote "&quot;"
      (replaceAll ">" "&gt;"
        (replaceAll "<" "&lt;"
          (replaceAll "&" "&amp;" s)))).

(** The part of the page before the displayed message; it depends on
    [success] only. *)
Definition page_before_message (success : bool) : string :=
  glue
    [ page_upto_title; if success then "OAuth 授权成功" else "OAuth 授权失败";
      page_upto_badge_class; if success then "success" else "error";
      page_upto_badge_text; if success then "成功" else "失败";
      page_upto_heading; if success then "OAuth 授权成功" else "OAuth 授权失败";
      page_upto_message ].

(** Case analysis over the 256 bytes. *)
Ltac each_byte c := destruct c as [[] [] [] [] [] [] [] []].

(** ** Sample inputs *)

(** One session under ["tok"], created at time 1000 and already completed. *)
Definition completed_world : World :=
  mkWorld {[ "tok" := ERef 0%nat ]}
    (heap_set (fun _ => no_session) 0%nat
       (mkSession 1000 "http://localhost:3000/oauth-callback"
          (Some (mkResult true "ok"))))
    1%nat.

(** One pending session under ["tok"], created at time 1000. *)
Definition pending_world : World :=
  mkWorld {[ "tok" := ERef 0%nat ]}
    (heap_set (fun _ => no_session) 0%nat
       (mkSession 1000 "http://localhost:3000/oauth-callback" None))
    1%nat.

Definition succeeding : Collaborators :=
  mkCollab (fun _ _ => Fulfilled "creds") (fun _ => Fulfilled tt).

Definition rejecting_with_undefined : Collaborators :=
  mkCollab (fun _ _ => Rejected ThrownNullish) (fun _ => Fulfilled tt).

Definition call_with_code (k code : string) : CallbackArgs :=
  mkArgs (Some k) (Some code) None None AuthManagerObject.

Definition denied_call : CallbackArgs :=
  mkArgs (Some "tok") None (Some "access_denied") None AuthManagerObject.

Definition two_calls : list (Z * CallbackArgs * Collaborators) :=
  [ (2000, call_with_code "tok" "abc", succeeding);
    (3000, call_with_code "tok" "abc", succeeding) ].

(** The same two calls with, in between, one that is given no
    [authManager]. *)
Definition three_calls : list (Z * CallbackArgs * Collaborators) :=
  [ (2000, call_with_code "tok" "abc", succeeding);
    (2500,
     mkArgs (Some "tok") (Some "abc") None None
       (AuthManagerNullish
          "Cannot read properties of undefined (reading 'apiLimiter')"),
     succeeding);
    (3000, call_with_code "tok" "abc", succeeding) ].

Definition port_3000_config : @jsvalue IntegerHost.host :=
  VObject (FCons "server"
             (VObject (FCons "port" (@VNumber IntegerHost.host (IntegerHost.Int 3000)) FNil))
             FNil).

Definition string_port_config : @jsvalue IntegerHost.host :=
  VObject (FCons "server" (VObject (FCons "port" (VString " 8080 ") FNil)) FNil).

Definition malformed_port_config : @jsvalue IntegerHost.host :=
  VObject (FCons "server" (VObject (FCons "port" (VString "http") FNil)) FNil).

Definition null_config : @jsvalue IntegerHost.host := VNull.

Definition sample_before : list (@event IntegerHost.host) := [].

(** A session is started, a second one is started, and a callback for the
    first arrives with a code. *)
Definition sample_after : list (@event IntegerHost.host) :=
  [ EvStart 1500 1500 "client" "other" VUndefined;
    EvCallback 2000 (call_with_code "tok" "abc") ].

Definition sample_exchange : Suspended :=
  mkSuspended "abc" "http://localhost:3000/oauth-callback" "tok" 0%nat.

(** * Further notions: the store seen from one state *)

(** What a poll of key [k] answers, read off the binding of [k] and the
    object it refers to. *)
Definition poll_view (now : Z) (w : World) (k : string) : StatusPayload :=
  match sessions w !! k with
  | Some (ERef l) =>
      if is_stale now (heap w) (ERef l) then status_expired
      else match result (heap w l) with
           | Some r => status_completed r
           | None => status_pending
           end
  | _ => status_expired
  end.

(** ** Further sample inputs *)


Section TraceNotions.
Context `{JsRuntime}.

(** The state token a request is about: the token being minted, the
    [state] argument of a callback, or the state captured by the parked
    callback being resumed.  A poll changes nothing for any token. *)
Definition event_key (e : event) (s : System) : option string :=
  match e with
  | EvStart _ _ _ tok _ => Some tok
  | EvStatus _ _ => None
  | EvCallback _ a => arg_state a
  | EvSettle i _ => x_state <$> inflight s !! i
  end.

(** The clock reading a request uses for its eviction, if it evicts. *)
Definition event_clock (e : event) : option Z :=
  match e with
  | EvStart now1 _ _ _ _ => Some now1
  | EvStatus now _ => Some now
  | EvCallback now _ => Some now
  | EvSettle _ _ => None
  end.

(** The tokens minted along a trace. *)
Definition minted (evs : list event) : list string :=
  omap (λ e, match e with
             | EvStart _ _ _ tok _ => Some tok
             | _ => None
             end) evs.

End TraceNotions.

(** No session object is reachable under two different states, neither
    through the map nor through a parked callback. *)
Record separated (s : System) : Prop := {
  sep_map : ∀ k k' l,
    sessions (world s) !! k = Some (ERef l) →
    sessions (world s) !! k' = Some (ERef l) → k = k';
  sep_inflight : ∀ x k,
    x ∈ inflight s →
    sessions (world s) !! k = Some (ERef (x_session x)) → k = x_state x;
  sep_parked : ∀ x y,
    x ∈ inflight s → y ∈ inflight s →
    x_session x = x_session y → x_state x = x_state y
}.

(** A system holding the completed sample session, and a history in which a
    second callback for it is parked, a second session is started, the
    first is polled and the parked callback is resumed with a failure. *)
Definition completed_system : System := mkSystem completed_world [] [].

Definition sample_history : list (@event IntegerHost.host) :=
  [ EvCallback 2000 (call_with_code "tok" "abc");
    EvStart 2500 2500 "client" "other" VUndefined;
    EvStatus 3000 (Some "tok");
    EvSettle 0 (Rejected (ThrownValue (Some "invalid_grant") "Error")) ].

(** Two sessions are started and the first one is polled. *)
Definition sample_trace : list (@event IntegerHost.host) :=
  [ EvStart 1000 1000 "client" "tok" port_3000_config;
    EvStart 1500 1500 "client" "other" VUndefined;
    EvStatus 2000 (Some "tok") ].

(** The provider reports a denial for the second session. *)
Definition other_callback : @event IntegerHost.host :=
  EvCallback 3000 (mkArgs (Some "other") None (Some "access_denied") None AuthManagerObject).

(** * Further notions: what the two consumers read *)

(** Every character of a string satisfies a test. *)
Fixpoint all_chars (P : ascii → bool) (s : string) : bool :=
  match s with
  | EmptyString => true
  | String c s' => P c && all_chars P s'
  end.

(** The characters a serialized query string is made of. *)
Definition url_query_char (c : ascii) : bool :=
  form_safe c
  || Ascii.eqb c "+" || Ascii.eqb c "%" || Ascii.eqb c "=" || Ascii.eqb c "&".

(** The first value a parsed query gives for a name, as
    [URLSearchParams.get]. *)
Fixpoint query_get (name : string) (params : list (string * string))
  : option string :=
  match params with
  | [] => None
  | (k, v) :: rest => if String.eqb k name then Some v else query_get name rest
  end.

(** The text a browser shows for character data in which every [&] starts
    one of the five references [escapeHtml] writes. *)
Fixpoint html_text (s : string) : string :=
  match s with
  | EmptyString => EmptyString
  | String c s' =>
      if Ascii.eqb c "&" then
        match s' with
        | String "a" (String "m" (String "p" (String ";" t))) =>
            String "&" (html_text t)
        | String "l" (String "t" (String ";" t)) => String "<" (html_text t)
        | String "g" (String "t" (String ";" t)) => String ">" (html_text t)
        | String "q" (String "u" (String "o" (String "t" (String ";" t)))) =>
            String dquote (html_text t)
        | String "#" (String "3" (String "9" (String ";" t))) =>
            String "'" (html_text t)
        | _ => String c (html_text s')
        end
      else String c (html_text s')
  end.

(** * The MCP tool-name hint

    [hasMcpTools] and [buildMcpToolNamesForHint] look at [claudeReq?.tools]
    only: whether it is an array and, for each element, whether
    [tool?.name] is a string, and which.  The request is therefore given
    as [None] when [tools] is not an array and otherwise as the list of its
    elements, each [Some name] when its name is a string and [None]
    otherwise. *)

Abbreviation mcp_tools := (option (list (option string))).

(** [s.startsWith(p)] *)
Definition startsWith (p s : string) : bool :=
  match strip_prefix p s with
  | Some _ => true
  | None => false
  end.

Definition hasMcpTools (claudeReq : mcp_tools) : bool :=
  match claudeReq with
  | Some tools =>
      existsb (λ tool, match tool with
                       | Some name => startsWith "mcp__" name
                       | None => false
                       end) tools
  | None => false
  end.

(** Putting a character in front of the first segment. *)
Definition push_char (c : ascii) (segs : list string) : list string :=
  match segs with
  | seg :: rest => String c seg :: rest
  | [] => [String c EmptyString]
  end.

(** [s.split("__")]: the separator is looked for from left to right, and
    the search resumes after each occurrence found. *)
Fixpoint split_dunder (s : string) : list string :=
  match s with
  | EmptyString => [EmptyString]
  | String c s' =>
      match s' with
      | String d r =>
          if Ascii.eqb c "_" && Ascii.eqb d "_"
          then EmptyString :: split_dunder r
          else push_char c (split_dunder s')
      | EmptyString => push_char c (split_dunder s')
      end
  end.

(** The server a tool contributes to the set, if any: the body of the loop
    up to [servers.add]. *)
Definition tool_server (tool : option string) : option string :=
  match tool with
  | Some name =>
      if startsWith "mcp__" name then
        match split_dunder name with
        | p0 :: p1 :: _ :: _ =>
            if String.eqb p0 "mcp" && nonempty p1 then Some p1 else None
        | _ => None
        end
      else None
  | None => None
  end.

(** [servers.add(x)] on a [Set] kept in insertion order. *)
Definition set_add (x : string) (servers : list string) : list string :=
  if existsb (String.eqb x) servers then servers else (servers ++ [x])%list.

Definition collect_servers (tools : list (option string)) : list string :=
  fold_left (λ servers tool,
               match tool_server tool with
               | Some server => set_add server servers
               | None => servers
               end) tools [].

(** The default order of [Array.prototype.sort]: strings compare by UTF-16
    code units.  On the UTF-8 bytes of two strings this is the byte order,
    except that the lead bytes [EE] and [EF] (the characters U+E000 to
    U+FFFF) come after the lead bytes of the supplementary planes. *)
Definition utf16_key (c : ascii) : N :=
  let n := N_of_ascii c in
  if N.leb 238 n && N.leb n 239 then (n + 16)%N
  else if N.leb 240 n then (n - 2)%N
  else n.

Fixpoint utf16_ltb (a b : string) : bool :=
  match a, b with
  | EmptyString, EmptyString => false
  | EmptyString, String _ _ => true
  | String _ _, EmptyString => false
  | String x a', String y b' =>
      if Ascii.eqb x y then utf16_ltb a' b'
      else N.ltb (utf16_key x) (utf16_key y)
  end.

Fixpoint insert_sorted (x : string) (l : list string) : list string :=
  match l with
  | [] => [x]
  | y :: l' => if utf16_ltb y x then y :: insert_sorted x l' else x :: y :: l'
  end.

(** [Array.from(servers).sort()]; the set holds no two equal strings, so
    the outcome does not depend on the sorting algorithm. *)
Definition sort_strings (l : list string) : list string :=
  fold_right insert_sorted [] l.

Definition server_pattern (server : string) : string :=
  "mcp__" +:+ server +:+ "__*".

(** The array [patterns]. *)
Definition mcp_patterns (claudeReq : mcp_tools) : list string :=
  map server_pattern
    (sort_strings (collect_servers (default [] claudeReq))).

Definition buildMcpToolNamesForHint (claudeReq : mcp_tools) : string :=
  match mcp_patterns claudeReq with
  | [] => "mcp__*"
  | patterns => join "、" patterns
  end.

(** A double underscore occurs in the string. *)
Fixpoint has_dunder (s : string) : bool :=
  match s with
  | EmptyString => false
  | String c s' =>
      match s' with
      | String d _ => (Ascii.eqb c "_" && Ascii.eqb d "_") || has_dunder s'
      | EmptyString => false
      end
  end.

(** A request with two tools of one server, one of another, a tool without
    server part, a builtin tool and an element without a name. *)
Definition sample_request : mcp_tools :=
  Some [ Some "mcp__github__create_issue"; Some "Bash"; None;
         Some "mcp__files__read"; Some "mcp__github__list_repos";
         Some "mcp__orphan" ].

(** * Retention of request logs: cleanupOldLogs

    The arithmetic and the comparisons are those of the host's numbers
    (doubles); they are taken as an interface, like the numeric built-ins
    above, so nothing below depends on how they round. *)

Class JsArith `{JsRuntime} := {
  Number_mul : number → number → number;
  Number_sub : number → number → number;
  Number_le : number → number → bool;
  Number_ge : number → number → bool
}.

(** [s.endsWith(suffix)]: some tail of [s] is [suffix]. *)
Fixpoint endsWith (suffix s : string) : bool :=
  if String.eqb s suffix then true
  else match s with
       | String _ s' => endsWith suffix s'
       | EmptyString => false
       end.

Section LogRetention.
Context `{JsArith}.

(** A directory entry as [readdir(_, { withFileTypes: true })] gives it. *)
Record Dirent := mkDirent { d_name : string; d_isFile : bool }.

(** The file system as the function meets it: the listing of the log
    directory ([None] when [readdir] throws), and for each file name (the
    path is the directory joined with the name) the modification time
    reported by [stat] ([None] when it throws) and whether [unlink]
    succeeds. *)
Record LogDir := mkLogDir {
  readdir : option (list Dirent);
  stat_mtimeMs : string → option number;
  unlink_ok : string → bool
}.

Record CleanupCount := mkCount { deleted : nat; scanned : nat }.

(** [Date.now() - retentionDays * 24 * 60 * 60 * 1000] *)
Definition cutoffMs (now retentionDays : number) : number :=
  Number_sub now
    (Number_mul
       (Number_mul
          (Number_mul (Number_mul retentionDays (number_literal 24))
             (number_literal 60))
          (number_literal 60))
       (number_literal 1000)).

(** The loop over the entries; the third component lists the names whose
    [unlink] was carried out, in order. *)
Fixpoint scan_entries (fs : LogDir) (cutoff : number) (entries : list Dirent)
    (count : CleanupCount) (removed : list string)
  : CleanupCount * list string :=
  match entries with
  | [] => (count, removed)
  | entry :: rest =>
      if negb (d_isFile entry) then scan_entries fs cutoff rest count removed
      else if negb (endsWith ".log" (d_name entry)) then
        scan_entries fs cutoff rest count removed
      else
        let count1 := mkCount (deleted count) (S (scanned count)) in
        match stat_mtimeMs fs (d_name entry) with
        | Some mtimeMs =>
            if Number_ge mtimeMs cutoff then
              scan_entries fs cutoff rest count1 removed
            else if unlink_ok fs (d_name entry) then
              scan_entries fs cutoff rest
                (mkCount (S (deleted count1)) (scanned count1))
                (removed ++ [d_name entry])%list
            else scan_entries fs cutoff rest count1 removed
        | None => scan_entries fs cutoff rest count1 removed
        end
  end.

Definition cleanupOldLogs (now : number) (fs : LogDir) (retentionDays : number)
  : CleanupCount * list string :=
  if negb (Number_isFinite retentionDays)
     || Number_le retentionDays (number_literal 0)
  then (mkCount 0 0, [])
  else
    match readdir fs with
    | None => (mkCount 0 0, [])
    | Some entries =>
        scan_entries fs (cutoffMs now retentionDays) entries (mkCount 0 0) []
    end.

(** The entries the scan counts: regular files whose name ends in [.log]. *)
Definition is_log_file (entry : Dirent) : bool :=
  d_isFile entry && endsWith ".log" (d_name entry).

(** The entries the scan removes. *)
Definition is_removable (fs : LogDir) (cutoff : number) (entry : Dirent)
  : bool :=
  is_log_file entry
  && match stat_mtimeMs fs (d_name entry) with
     | Some mtimeMs => negb (Number_ge mtimeMs cutoff)
     | None => false
     end
  && unlink_ok fs (d_name entry).

End LogRetention.

(** Arithmetic of the integer host: exact on integers, [NaN] is absorbing
    and compares false. *)
Module IntegerArith.
Import IntegerHost.

Definition lift (f : Z → Z → Z) (a b : num) : num :=
  match a, b with
  | Int x, Int y => Int (f x y)
  | _, _ => NaN
  end.

Definition test (f : Z → Z → bool) (a b : num) : bool :=
  match a, b with
  | Int x, Int y => f x y
  | _, _ => false
  end.

#[export] Instance arith : @JsArith IntegerHost.host := {|
  Number_mul := lift Z.mul;
  Number_sub := lift Z.sub;
  Number_le := test Z.leb;
  Number_ge := test Z.geb
|}.

End IntegerArith.

(** A log directory at a time of 10 days and 1 hour after the epoch: an
    old log, a recent log, an old file that is not a log, a directory
    named like a log, an old log whose [stat] fails and one whose [unlink]
    fails. *)
Definition sample_entries : list Dirent :=
  [ mkDirent "old.log" true; mkDirent "new.log" true;
    mkDirent "old.txt" true; mkDirent "dir.log" false;
    mkDirent "gone.log" true; mkDirent "locked.log" true ].

Definition sample_mtime (name : string) : option IntegerHost.num :=
  if String.eqb name "new.log" then Some (IntegerHost.Int 864000000)
  else if String.eqb name "gone.log" then None
  else Some (IntegerHost.Int 1000).

Definition sample_logdir : @LogDir IntegerHost.host :=
  @mkLogDir IntegerHost.host (Some sample_entries) sample_mtime
    (fun name => negb (String.eqb name "locked.log")).

(** * Properties *)

(** ** The session store and its eviction *)

Lemma is_stale_false now h e :
  is_stale now h e = false ↔ ∃ l, e = ERef l ∧ fresh_at now (h l).
Proof.
  unfold fresh_at. destruct e as [|l]; simpl.
  - split; [discriminate | intros (l & Hl & _); discriminate].
  - rewrite orb_false_iff, Z.eqb_neq, Z.ltb_ge. split.
    + intros [Hc Ha]. exists l. auto.
    + intros (l' & Hl & Hc & Ha). injection Hl as <-. auto.
Qed.

Lemma is_stale_true now h e :
  is_stale now h e = true ↔
  e = EFalsy ∨ ∃ l, e = ERef l ∧
    (createdAt (h l) = 0 ∨ SESSION_TTL_MS < now - createdAt (h l)).
Proof.
  destruct e as [|l]; simpl.
  - split; auto.
  - rewrite orb_true_iff, Z.eqb_eq, Z.ltb_lt. split.
    + intros Hs. right. exists l. auto.
    + intros [Hf | (l' & Hl & Hs)]; [discriminate | ]. injection Hl as <-. auto.
Qed.

Lemma cleanup_lookup_Some now w k e :
  sessions (cleanupExpiredSessions now w) !! k = Some e ↔
  sessions w !! k = Some e ∧ is_stale now (heap w) e = false.
Proof. unfold cleanupExpiredSessions; simpl. apply map_lookup_filter_Some. Qed.

Lemma cleanup_lookup_None now w k :
  sessions (cleanupExpiredSessions now w) !! k = None ↔
  ∀ e, sessions w !! k = Some e → is_stale now (heap w) e = true.
Proof.
  unfold cleanupExpiredSessions; simpl. rewrite map_lookup_filter_None. split.
  - intros [Hn | Hall] e He; [congruence | ].
    specialize (Hall e He). simpl in Hall. by destruct (is_stale now (heap w) e).
  - intros Hall. destruct (sessions w !! k) as [e|] eqn:He; [right | by left].
    intros e' [= <-]. simpl. rewrite (Hall e eq_refl). discriminate.
Qed.

Lemma cleanup_heap now w : heap (cleanupExpiredSessions now w) = heap w.
Proof. reflexivity. Qed.

Lemma cleanup_next_loc now w :
  next_loc (cleanupExpiredSessions now w) = next_loc w.
Proof. reflexivity. Qed.

Lemma sessions_get_ref w st l :
  sessions_get w st = ERef l ↔ ∃ k, st = Some k ∧ sessions w !! k = Some (ERef l).
Proof.
  destruct st as [k|]; simpl.
  - destruct (sessions w !! k) as [e|] eqn:He; simpl.
    + split; [intros ->; eauto | intros (k' & [= <-] & Hk); congruence].
    + split; [discriminate | intros (k' & [= <-] & Hk); congruence].
  - split; [discriminate | intros (k' & Hk & _); discriminate].
Qed.

Lemma cleanup_get_ref now w st l :
  sessions_get (cleanupExpiredSessions now w) st = ERef l ↔
  sessions_get w st = ERef l ∧ fresh_at now (heap w l).
Proof.
  rewrite !sessions_get_ref. split.
  - intros (k & -> & Hk). apply cleanup_lookup_Some in Hk as [Hk Hs].
    apply is_stale_false in Hs as (l' & [= <-] & Hf). eauto.
  - intros [(k & -> & Hk) Hf]. exists k. split; [done | ].
    apply cleanup_lookup_Some. split; [done | ].
    apply is_stale_false. eauto.
Qed.

(** After the eviction no key is bound to a falsy value, so a falsy read
    means the key is unbound. *)
Lemma cleanup_get_falsy now w k :
  sessions_get (cleanupExpiredSessions now w) (Some k) = EFalsy ↔
  sessions (cleanupExpiredSessions now w) !! k = None.
Proof.
  unfold sessions_get.
  destruct (sessions (cleanupExpiredSessions now w) !! k) as [e|] eqn:He;
    simpl; [ | by split].
  apply cleanup_lookup_Some in He as [_ Hs].
  apply is_stale_false in Hs as (l & -> & _). split; discriminate.
Qed.

(** Eviction is idempotent at a given instant. *)
Lemma cleanup_idem now w :
  sessions (cleanupExpiredSessions now (cleanupExpiredSessions now w))
  = sessions (cleanupExpiredSessions now w).
Proof.
  apply map_eq; intros k. apply option_eq; intros e.
  rewrite !cleanup_lookup_Some, cleanup_heap. tauto.
Qed.

Lemma getOAuthStatus_world now st w :
  (getOAuthStatus now st w).2 = cleanupExpiredSessions now w.
Proof.
  unfold getOAuthStatus.
  destruct (sessions_get _ st); [done | ].
  by destruct (result _).
Qed.

Lemma getOAuthStatus_absent now st w :
  sessions_get (cleanupExpiredSessions now w) st = EFalsy →
  (getOAuthStatus now st w).1 = status_expired.
Proof. unfold getOAuthStatus. by intros ->. Qed.

Lemma getOAuthStatus_found now st w l :
  sessions_get (cleanupExpiredSessions now w) st = ERef l →
  (getOAuthStatus now st w).1 =
    match result (heap w l) with
    | Some r => status_completed r
    | None => status_pending
    end.
Proof.
  unfold getOAuthStatus. intros ->. rewrite cleanup_heap.
  by destruct (result (heap w l)).
Qed.

Lemma callback_enter_cases now a w :
  (callback_enter now a w).1 = inl (mkResult false "Missing state")
  ∨ (callback_enter now a w).1 = inl (mkResult false "OAuth state not found or expired")
  ∨ ∃ l, sessions_get (cleanupExpiredSessions now w) (arg_state a) = ERef l.
Proof.
  unfold callback_enter. destruct (truthy (arg_state a)); simpl; [ | by left].
  destruct (sessions_get _ (arg_state a)) as [|l]; simpl; [by right; left | ].
  right; right. by exists l.
Qed.

Section StoreProperties.
Context `{JsRuntime}.

(** C10. Right after the eviction step of a public operation, every entry
    left in the store refers to a session whose [createdAt] is truthy and
    whose age is at most the TTL; entries holding a falsy value, a falsy
    [createdAt] or an over-age session are gone.  Hence the lookups of
    [getOAuthStatus] and [completeOAuthCallback], which follow the eviction
    in the same synchronous run, only ever find such sessions, and the
    store [startOAuthSession] leaves holds only such sessions besides the
    new one. *)
Theorem eviction_leaves_only_fresh_sessions (now : Z) (w : World) :
  let w1 := cleanupExpiredSessions now w in
  (∀ k e, sessions w1 !! k = Some e →
          ∃ l, e = ERef l ∧ createdAt (heap w1 l) ≠ 0
               ∧ now - createdAt (heap w1 l) ≤ SESSION_TTL_MS)
  ∧ (∀ k e, sessions w !! k = Some e →
            (e = EFalsy ∨ ∃ l, e = ERef l ∧
               (createdAt (heap w l) = 0
                ∨ SESSION_TTL_MS < now - createdAt (heap w l))) →
            sessions w1 !! k = None)
  ∧ (∀ st, (getOAuthStatus now st w).1 ≠ status_expired →
           ∃ l, sessions_get w st = ERef l ∧ fresh_at now (heap w l))
  ∧ (∀ a, (callback_enter now a w).1 = inl (mkResult false "Missing state")
          ∨ (callback_enter now a w).1
             = inl (mkResult false "OAuth state not found or expired")
          ∨ ∃ l, sessions_get w (arg_state a) = ERef l
                 ∧ fresh_at now (heap w l))
  ∧ (∀ now2 clientId tok config k e,
       sessions (startOAuthSession now now2 clientId tok config w).2 !! k
         = Some e →
       k ≠ tok → ∃ l, e = ERef l ∧ fresh_at now (heap w l)).
Proof.
  intros w1. repeat split.
  - intros k e He. apply cleanup_lookup_Some in He as [_ Hs].
    apply is_stale_false in Hs as (l & -> & Hc & Ha). eauto.
  - intros k e He Hbad. apply cleanup_lookup_None. intros e' He'.
    assert (e' = e) as -> by congruence. by apply is_stale_true.
  - intros st Hst.
    destruct (sessions_get w1 st) as [|l] eqn:Hg.
    + by apply getOAuthStatus_absent in Hg.
    + apply cleanup_get_ref in Hg. eauto.
  - intros a. destruct (callback_enter_cases now a w) as [Hm | [He | [l Hl]]];
      [by left | by right; left | right; right].
    apply cleanup_get_ref in Hl. eauto.
  - intros now2 clientId tok config k e He Hk. simpl in He.
    rewrite lookup_insert_ne in He by done.
    apply map_lookup_filter_Some in He as [_ Hs]. simpl in Hs.
    destruct (is_stale now (heap w) e) eqn:Hst; [done | ].
    by apply is_stale_false in Hst.
Qed.

End StoreProperties.

(** C4. Once [now - createdAt] exceeds the TTL, a poll of the state
    answers [expired] whatever the session's [result] is; the poll evicts
    the session, together with every other over-age entry, so later polls
    of the resulting store answer [expired] as well.  The hypothesis reads:
    whatever session the state is bound to is over-age (it also covers a
    state that is not bound at all). *)
Theorem expired_session_reports_expired (now : Z) (st : jsparam) (w : World) :
  (∀ l, sessions_get w st = ERef l →
        SESSION_TTL_MS < now - createdAt (heap w l)) →
  (getOAuthStatus now st w).1 = status_expired
  ∧ sessions_get (getOAuthStatus now st w).2 st = EFalsy
  ∧ (∀ k l, sessions w !! k = Some (ERef l) →
            SESSION_TTL_MS < now - createdAt (heap w l) →
            sessions (getOAuthStatus now st w).2 !! k = None)
  ∧ (∀ now', (getOAuthStatus now' st (getOAuthStatus now st w).2).1
             = status_expired).
Proof.
  intros Hold.
  assert (Hgone : sessions_get (cleanupExpiredSessions now w) st = EFalsy).
  { destruct (sessions_get (cleanupExpiredSessions now w) st) as [|l] eqn:Hg;
      [done | ].
    apply cleanup_get_ref in Hg as [Hg [_ Hage]].
    specialize (Hold l Hg). lia. }
  rewrite getOAuthStatus_world. repeat split.
  - by apply getOAuthStatus_absent.
  - done.
  - intros k l Hk Hage. apply cleanup_lookup_None. intros e He.
    assert (e = ERef l) as -> by congruence.
    apply is_stale_true. right. exists l. auto.
  - intros now'. apply getOAuthStatus_absent.
    destruct (sessions_get (cleanupExpiredSessions now' _) st) as [|l] eqn:Hg;
      [done | ].
    apply cleanup_get_ref in Hg as [Hg _]. congruence.
Qed.

Lemma expired_session_reports_expired_witness :
  (∀ l, sessions_get completed_world (Some "tok") = ERef l →
        SESSION_TTL_MS < 1801001 - createdAt (heap completed_world l))
  ∧ (getOAuthStatus 1801001 (Some "tok") completed_world).1 = status_expired.
Proof.
  assert (Hold : ∀ l, sessions_get completed_world (Some "tok") = ERef l →
        SESSION_TTL_MS < 1801001 - createdAt (heap completed_world l)).
  { intros l Hl. vm_compute in Hl. injection Hl as <-. reflexivity. }
  split; [exact Hold | ].
  exact (proj1 (expired_session_reports_expired 1801001 (Some "tok")
                  completed_world Hold)).
Defined.

(** A callback parked at its [await] rebinds its session when it resumes,
    even after the session was evicted; the session keeps its creation time,
    so the next poll evicts it again and still answers [expired]. *)
Example resumed_callback_does_not_revive_session :
  sessions
    (world (@run IntegerHost.host
              [ EvCallback 2000 (call_with_code "tok" "abc");
                EvStatus 1802000 (Some "tok");
                EvSettle 0 (Fulfilled tt) ]
              (step (EvStart 1000 1000 "client" "tok" port_3000_config) init)))
    !! "tok" = Some (ERef 0%nat)
  ∧ (getOAuthStatus 1802001 (Some "tok")
       (world (@run IntegerHost.host
                 [ EvCallback 2000 (call_with_code "tok" "abc");
                   EvStatus 1802000 (Some "tok");
                   EvSettle 0 (Fulfilled tt) ]
                 (step (EvStart 1000 1000 "client" "tok" port_3000_config)
                    init)))).1
    = status_expired.
Proof. split; vm_compute; reflexivity. Qed.

(** ** The callback processor *)

Lemma truthy_Some p : truthy p = true → p = Some (param_text p).
Proof. by destruct p as [[|c s]|]. Qed.

Lemma truthy_nonempty k : k ≠ EmptyString → truthy (Some k) = true.
Proof. by destruct k. Qed.

Lemma heap_set_same h l s : heap_set h l s l = s.
Proof. unfold heap_set. by rewrite Nat.eqb_refl. Qed.

Lemma heap_set_other h l s l' : l' ≠ l → heap_set h l s l' = h l'.
Proof.
  intros Hne. unfold heap_set.
  destruct (Nat.eqb l' l) eqn:E; [ | done]. by apply Nat.eqb_eq in E.
Qed.

Lemma record_result_get w k l r :
  sessions_get (record_result w k l r) (Some k) = ERef l.
Proof. simpl. by rewrite lookup_insert_eq. Qed.

Lemma record_result_heap w k l r :
  heap (record_result w k l r) l
  = mkSession (createdAt (heap w l)) (redirectUri (heap w l)) (Some r).
Proof. simpl. apply heap_set_same. Qed.

(** Writing a result never changes when or for which redirect URI any
    session was created. *)
Lemma record_result_keeps w k l r l' :
  createdAt (heap (record_result w k l r) l') = createdAt (heap w l')
  ∧ redirectUri (heap (record_result w k l r) l') = redirectUri (heap w l').
Proof.
  simpl. unfold heap_set. destruct (Nat.eqb l' l) eqn:E; [ | done].
  apply Nat.eqb_eq in E as ->. done.
Qed.

Lemma record_result_redirectUri w k l r l' :
  redirectUri (heap (record_result w k l r) l') = redirectUri (heap w l').
Proof. apply record_result_keeps. Qed.

(** The shape of the synchronous prefix once a session has been found. *)
Lemma callback_enter_found now a w l :
  truthy (arg_state a) = true →
  sessions_get (cleanupExpiredSessions now w) (arg_state a) = ERef l →
  callback_enter now a w =
    let w1 := cleanupExpiredSessions now w in
    let st := param_text (arg_state a) in
    if truthy (arg_error a) then
      let r := mkResult false
                 ("授权失败: "
                    +:+ param_text (js_or (arg_errorDescription a) (arg_error a))) in
      (inl r, record_result w1 st l r)
    else if negb (truthy (arg_code a)) then
      let r := mkResult false "Missing code" in
      (inl r, record_result w1 st l r)
    else
      match arg_authManager a with
      | AuthManagerObject =>
          (inr (mkSuspended (param_text (arg_code a))
                  (redirectUri (heap w1 l)) st l),
           w1)
      | AuthManagerNullish msg =>
          let r := mkResult false
                     ("获取 token 失败: "
                        +:+ param_text
                              (js_or (Some msg) (Some (type_error_string msg)))) in
          (inl r, record_result w1 st l r)
      end.
Proof. intros Hst Hl. unfold callback_enter. by rewrite Hst, Hl. Qed.

(** C3. A callback whose non-empty state is not in the store after the
    eviction returns the failure [OAuth state not found or expired],
    whatever [code], [error], [errorDescription] and [authManager] are and
    however the collaborators would behave; it starts no token exchange and
    leaves the store as the eviction left it. *)
Theorem unknown_state_is_reported_expired
    (now : Z) (k : string) (code err desc : jsparam) (am : AuthManagerArg)
    (c : Collaborators) (w : World) :
  k ≠ EmptyString →
  sessions (cleanupExpiredSessions now w) !! k = None →
  completeOAuthCallback now (mkArgs (Some k) code err desc am) c w
  = (Returned (mkResult false "OAuth state not found or expired"),
     cleanupExpiredSessions now w, []).
Proof.
  intros Hk Habsent. apply cleanup_get_falsy in Habsent.
  unfold completeOAuthCallback, callback_enter. cbn [arg_state].
  by rewrite (truthy_nonempty k Hk), Habsent.
Qed.

Lemma unknown_state_is_reported_expired_witness :
  "nope" ≠ EmptyString
  ∧ sessions (cleanupExpiredSessions 2000 pending_world) !! "nope" = None
  ∧ completeOAuthCallback 2000
      (mkArgs (Some "nope") (Some "abc") (Some "access_denied") None
         AuthManagerObject)
      (mkCollab (fun _ _ => Fulfilled "creds") (fun _ => Fulfilled tt))
      pending_world
    = (Returned (mkResult false "OAuth state not found or expired"),
       cleanupExpiredSessions 2000 pending_world, []).
Proof.
  assert (Hk : "nope" ≠ EmptyString) by discriminate.
  assert (Ha : sessions (cleanupExpiredSessions 2000 pending_world) !! "nope"
               = None) by (vm_compute; reflexivity).
  split; [exact Hk | split; [exact Ha | ]].
  exact (unknown_state_is_reported_expired 2000 "nope" (Some "abc")
           (Some "access_denied") None AuthManagerObject _ pending_world Hk Ha).
Defined.

Lemma poll_all_completed times st w l r c :
  sessions_get w st = ERef l →
  result (heap w l) = Some r →
  createdAt (heap w l) = c →
  c ≠ 0 →
  Forall (λ t, t - c ≤ SESSION_TTL_MS) times →
  Forall (λ p, p = status_completed r) (poll_all times st w).
Proof.
  intros Hg Hr Hc Hc0 Hall. revert w Hg Hr Hc.
  induction Hall as [|t ts Ht _ IH]; intros w Hg Hr Hc; simpl.
  - constructor.
  - assert (Hfound : sessions_get (cleanupExpiredSessions t w) st = ERef l).
    { apply cleanup_get_ref. split; [done | ]. unfold fresh_at.
      rewrite Hc. auto. }
    pose proof (getOAuthStatus_found t st w l Hfound) as Hp.
    pose proof (getOAuthStatus_world t st w) as Hw.
    destruct (getOAuthStatus t st w) as [p w1]. simpl in Hp, Hw. subst p w1.
    rewrite Hr. constructor; [done | ].
    apply IH; [done | by rewrite cleanup_heap | by rewrite cleanup_heap].
Qed.

(** What a call does to the store once it has found a session: a returned
    result has been recorded on the session object and the object rebound
    under the state; a call that throws leaves the store as the eviction
    left it. *)
Lemma callback_found_outcome now a c w l out w' xs :
  truthy (arg_state a) = true →
  sessions_get (cleanupExpiredSessions now w) (arg_state a) = ERef l →
  completeOAuthCallback now a c w = (out, w', xs) →
  match out with
  | Returned r =>
      w' = record_result (cleanupExpiredSessions now w)
             (param_text (arg_state a)) l r
  | ThrewTypeError => w' = cleanupExpiredSessions now w
  end.
Proof.
  intros Hst Hl. unfold completeOAuthCallback.
  rewrite (callback_enter_found now a w l Hst Hl). cbv zeta.
  destruct (truthy (arg_error a)); [by intros [= <- <- _] | ].
  destruct (truthy (arg_code a)); simpl; [ | by intros [= <- <- _]].
  destruct (arg_authManager a) as [|msg]; [ | by intros [= <- <- _]].
  unfold callback_settle.
  destruct (collaborate c _ _) as [[]|[|m s]]; simpl; by intros [= <- <- _].
Qed.

(** The token exchanges one call starts: exactly one when a session was
    found, no [error] was supplied, a [code] was and [authManager] is an
    object; the call does not look at the session's [result]. *)
Lemma callback_found_exchanges now a c w l :
  truthy (arg_state a) = true →
  sessions_get (cleanupExpiredSessions now w) (arg_state a) = ERef l →
  truthy (arg_error a) = false →
  truthy (arg_code a) = true →
  arg_authManager a = AuthManagerObject →
  (completeOAuthCallback now a c w).2
  = [mkSuspended (param_text (arg_code a)) (redirectUri (heap w l))
       (param_text (arg_state a)) l].
Proof.
  intros Hst Hl He Hc Ham. unfold completeOAuthCallback.
  rewrite (callback_enter_found now a w l Hst Hl). cbv zeta.
  rewrite He, Hc, Ham. simpl.
  by destruct (callback_settle _ _ _).
Qed.

(** Without an [authManager] the exchange is not reached: the call records
    and returns the failure raised by reading [authManager.apiLimiter], and
    starts no exchange. *)
Lemma callback_without_authManager now a c w l msg :
  truthy (arg_state a) = true →
  sessions_get (cleanupExpiredSessions now w) (arg_state a) = ERef l →
  truthy (arg_error a) = false →
  truthy (arg_code a) = true →
  arg_authManager a = AuthManagerNullish msg →
  completeOAuthCallback now a c w
  = (Returned (mkResult false
                 ("获取 token 失败: "
                    +:+ param_text
                          (js_or (Some msg) (Some (type_error_string msg))))),
     record_result (cleanupExpiredSessions now w) (param_text (arg_state a)) l
       (mkResult false
          ("获取 token 失败: "
             +:+ param_text (js_or (Some msg) (Some (type_error_string msg))))),
     []).
Proof.
  intros Hst Hl He Hc Ham. unfold completeOAuthCallback.
  rewrite (callback_enter_found now a w l Hst Hl). cbv zeta.
  by rewrite He, Hc, Ham.
Qed.

(** The continuation records what it returns, in whatever state the store
    is when the collaborators settle: even if the session was evicted in
    the meantime, the object is rebound under its state. *)
Lemma callback_settle_records k o w r w' :
  callback_settle k o w = (Returned r, w') →
  sessions_get w' (Some (x_state k)) = ERef (x_session k)
  ∧ result (heap w' (x_session k)) = Some r.
Proof.
  unfold callback_settle.
  destruct o as [[]|[|m s]]; intros [= <- <-]; split;
    first [apply record_result_get | by rewrite record_result_heap].
Qed.

(** A call that returns from the synchronous prefix starts no exchange. *)
Lemma callback_early_return_exchanges now a c w r w1 :
  callback_enter now a w = (inl r, w1) →
  completeOAuthCallback now a c w = (Returned r, w1, []).
Proof. intros He. unfold completeOAuthCallback. by rewrite He. Qed.

(** C2 (as amended). In every branch that has found the session (provider
    error, missing code, missing [authManager], successful exchange, failed
    exchange or persistence) the result returned to the caller is the one
    written into the session's [result] field, and the session stays bound
    under the
    state; so polls of that state made afterwards, at times within the TTL
    of the session and with no other callback for the state in between,
    all answer [completed] with the same [success] and [message]. *)
Theorem callback_result_is_recorded
    (now : Z) (a : CallbackArgs) (c : Collaborators) (w : World) (l : loc)
    (r : Result) (w' : World) (xs : list Suspended) :
  truthy (arg_state a) = true →
  sessions_get (cleanupExpiredSessions now w) (arg_state a) = ERef l →
  completeOAuthCallback now a c w = (Returned r, w', xs) →
  sessions_get w' (arg_state a) = ERef l
  ∧ result (heap w' l) = Some r
  ∧ createdAt (heap w' l) = createdAt (heap w l)
  ∧ ∀ times,
      Forall (λ t, t - createdAt (heap w l) ≤ SESSION_TTL_MS) times →
      Forall (λ p, p = status_completed r) (poll_all times (arg_state a) w').
Proof.
  intros Hst Hl Hrun.
  pose proof (callback_found_outcome now a c w l _ _ _ Hst Hl Hrun) as Hw.
  simpl in Hw. subst w'.
  pose proof (truthy_Some _ Hst) as Hk.
  set (k := param_text (arg_state a)) in *. clearbody k. rewrite Hk.
  assert (Hg := record_result_get (cleanupExpiredSessions now w) k l r).
  assert (Hh := record_result_heap (cleanupExpiredSessions now w) k l r).
  rewrite cleanup_heap in Hh.
  apply cleanup_get_ref in Hl as [_ [Hc0 _]].
  repeat split.
  - done.
  - by rewrite Hh.
  - by rewrite Hh.
  - intros times Hall.
    eapply (poll_all_completed times _ _ l r (createdAt (heap w l)));
      [done | by rewrite Hh | by rewrite Hh | done | done].
Qed.

Lemma callback_result_is_recorded_witness :
  truthy (arg_state denied_call) = true
  ∧ sessions_get (cleanupExpiredSessions 2000 pending_world)
      (arg_state denied_call) = ERef 0%nat
  ∧ (completeOAuthCallback 2000 denied_call succeeding pending_world).1.1
    = Returned (mkResult false "授权失败: access_denied")
  ∧ result
      (heap (completeOAuthCallback 2000 denied_call succeeding pending_world).1.2
         0%nat)
    = Some (mkResult false "授权失败: access_denied").
Proof.
  assert (H1 : truthy (arg_state denied_call) = true) by reflexivity.
  assert (H2 : sessions_get (cleanupExpiredSessions 2000 pending_world)
                 (arg_state denied_call) = ERef 0%nat)
    by (vm_compute; reflexivity).
  assert (H3 : completeOAuthCallback 2000 denied_call succeeding pending_world
               = (Returned (mkResult false "授权失败: access_denied"),
                  (completeOAuthCallback 2000 denied_call succeeding
                     pending_world).1.2,
                  (completeOAuthCallback 2000 denied_call succeeding
                     pending_world).2))
    by (vm_compute; reflexivity).
  split; [exact H1 | split; [exact H2 | split; [vm_compute; reflexivity | ]]].
  exact (proj1 (proj2 (callback_result_is_recorded 2000 denied_call succeeding
                         pending_world 0%nat _ _ _ H1 H2 H3))).
Defined.

(** C2, as stated, fails in the two branches that return before any
    session is at hand: the call below returns a failure for a state that
    is not in the store, and the poll that follows answers [expired], not
    [completed] with the returned values. *)
Lemma callback_result_not_recorded_when_absent :
  ¬ (∀ now a c w r w' xs,
       completeOAuthCallback now a c w = (Returned r, w', xs) →
       (getOAuthStatus now (arg_state a) w').1 = status_completed r).
Proof.
  intros Hclaim.
  specialize (Hclaim 2000 (call_with_code "nope" "abc") succeeding empty_world
                (mkResult false "OAuth state not found or expired")
                (cleanupExpiredSessions 2000 empty_world) [] eq_refl).
  vm_compute in Hclaim. discriminate Hclaim.
Qed.

Lemma run_callbacks_exchanges calls : ∀ w k l c u,
  k ≠ EmptyString →
  sessions_get w (Some k) = ERef l →
  createdAt (heap w l) = c → c ≠ 0 →
  redirectUri (heap w l) = u →
  Forall (reaches_exchange k c) calls →
  (run_callbacks calls w).2 = omap (exchange_of u k l) calls.
Proof.
  induction calls as [|[[now a] cb] rest IH]; intros w k l c u Hk Hg Hc Hc0 Hu Hall.
  - reflexivity.
  - apply Forall_cons in Hall as [(Hst & He & Hcode & Hage) Hrest].
    simpl in Hst, He, Hcode, Hage.
    assert (Hst' : truthy (arg_state a) = true)
      by (rewrite Hst; by apply truthy_nonempty).
    assert (Hfound : sessions_get (cleanupExpiredSessions now w) (arg_state a)
                     = ERef l).
    { rewrite Hst. apply cleanup_get_ref. split; [done | ].
      unfold fresh_at. rewrite Hc. auto. }
    assert (Hxs : (completeOAuthCallback now a cb w).2
                  = match exchange_of u k l (now, a, cb) with
                    | Some x => [x]
                    | None => []
                    end).
    { unfold exchange_of, has_authManager. cbn [fst snd].
      destruct (arg_authManager a) as [|msg] eqn:Ham.
      - rewrite (callback_found_exchanges now a cb w l Hst' Hfound He Hcode Ham).
        by rewrite Hst, Hu.
      - by rewrite (callback_without_authManager now a cb w l msg Hst' Hfound
                      He Hcode Ham). }
    pose proof (callback_found_outcome now a cb w l) as Hout.
    cbn [run_callbacks omap list_omap].
    destruct (completeOAuthCallback now a cb w) as [[out w1] xs].
    specialize (Hout out w1 xs Hst' Hfound eq_refl). simpl in Hxs. subst xs.
    assert (Hinv : sessions_get w1 (Some k) = ERef l
                   ∧ createdAt (heap w1 l) = c ∧ redirectUri (heap w1 l) = u).
    { rewrite Hst in Hout, Hfound. simpl in Hout.
      destruct out as [r|]; subst w1.
      - split; [apply record_result_get | ].
        destruct (record_result_keeps (cleanupExpiredSessions now w) k l r l)
          as [-> ->]. by rewrite cleanup_heap.
      - by rewrite cleanup_heap. }
    destruct Hinv as (Hg1 & Hc1 & Hu1).
    specialize (IH w1 k l c u Hk Hg1 Hc1 Hc0 Hu1 Hrest).
    destruct (run_callbacks rest w1) as [[outs w2] ys]. simpl in IH. subst ys.
    cbn [snd]. by destruct (exchange_of u k l (now, a, cb)).
Qed.

Lemma omap_all_Some {A B} (f : A → option B) (g : A → B) (l : list A) :
  Forall (λ x, f x = Some (g x)) l → omap f l = map g l.
Proof.
  induction 1 as [|x l Hx _ IH]; [done | ].
  cbn [omap list_omap]. by rewrite Hx, IH.
Qed.

(** C1 (as amended). Consider calls made one after the other for one state
    whose session is in the store and within its TTL, each without [error]
    and with a [code].  Every such call that is given an [authManager]
    object starts exactly one token exchange, with the redirect URI of the
    session, whether or not the session already holds a terminal [result];
    a call given no [authManager] starts none (the argument list throws
    before the collaborator is invoked).  So the exchanges started are one
    per call with an [authManager], and [n] such calls start [n]
    exchanges.  (Calls that return in one of the four earlier branches
    start none, see [callback_early_return_exchanges].) *)
Theorem one_exchange_per_callback_with_code
    (calls : list (Z * CallbackArgs * Collaborators)) (w : World)
    (k : string) (l : loc) :
  k ≠ EmptyString →
  sessions w !! k = Some (ERef l) →
  createdAt (heap w l) ≠ 0 →
  Forall (reaches_exchange k (createdAt (heap w l))) calls →
  (run_callbacks calls w).2 = omap (exchange_of (redirectUri (heap w l)) k l) calls
  ∧ length (run_callbacks calls w).2 = length (filter has_authManager calls)
  ∧ (Forall (λ call, has_authManager call = true) calls →
     length (run_callbacks calls w).2 = length calls
     ∧ (run_callbacks calls w).2
       = map (λ call, mkSuspended (param_text (arg_code call.1.2))
                        (redirectUri (heap w l)) k l) calls).
Proof.
  intros Hk Hl Hc0 Hall.
  assert (Hxs : (run_callbacks calls w).2
                = omap (exchange_of (redirectUri (heap w l)) k l) calls).
  { apply (run_callbacks_exchanges calls w k l (createdAt (heap w l)));
      try done. simpl. by rewrite Hl. }
  rewrite Hxs. split; [done | split].
  - clear. induction calls as [|call calls IH]; [done | ].
    cbn [omap list_omap]. rewrite filter_cons.
    assert (Hx : exchange_of (redirectUri (heap w l)) k l call
                 = if has_authManager call
                   then Some (mkSuspended (param_text (arg_code call.1.2))
                                (redirectUri (heap w l)) k l)
                   else None) by reflexivity.
    rewrite Hx. destruct (has_authManager call) eqn:Ham.
    + rewrite decide_True by done. simpl. by rewrite IH.
    + rewrite decide_False by (intros []). done.
  - intros Ham.
    assert (Hmap : omap (exchange_of (redirectUri (heap w l)) k l) calls
                   = map (λ call, mkSuspended (param_text (arg_code call.1.2))
                                    (redirectUri (heap w l)) k l) calls).
    { apply omap_all_Some. eapply Forall_impl; [exact Ham | ].
      intros call Hc. unfold exchange_of. by rewrite Hc. }
    rewrite Hmap. split; [by rewrite length_map | done].
Qed.

Lemma one_exchange_per_callback_with_code_witness :
  "tok" ≠ EmptyString
  ∧ sessions completed_world !! "tok" = Some (ERef 0%nat)
  ∧ createdAt (heap completed_world 0%nat) ≠ 0
  ∧ Forall (reaches_exchange "tok" (createdAt (heap completed_world 0%nat)))
      three_calls
  ∧ length (run_callbacks three_calls completed_world).2 = 2%nat.
Proof.
  assert (H1 : "tok" ≠ EmptyString) by discriminate.
  assert (H2 : sessions completed_world !! "tok" = Some (ERef 0%nat))
    by (vm_compute; reflexivity).
  assert (H3 : createdAt (heap completed_world 0%nat) ≠ 0)
    by (vm_compute; discriminate).
  assert (H4 : Forall (reaches_exchange "tok"
                         (createdAt (heap completed_world 0%nat))) three_calls).
  { repeat constructor; vm_compute; discriminate. }
  repeat (split; [assumption | ]).
  exact (proj1 (proj2 (one_exchange_per_callback_with_code three_calls
                         completed_world "tok" 0%nat H1 H2 H3 H4))).
Defined.

(** C1, as stated, fails: two calls with the same state and a valid code,
    made one after the other on a live session, start two exchanges; the
    second call finds the result of the first already recorded and
    exchanges all the same. *)
Lemma second_callback_exchanges_again :
  ¬ (∀ calls w k,
       Forall (λ call : Z * CallbackArgs * Collaborators,
                 arg_state call.1.2 = Some k
                 ∧ truthy (arg_code call.1.2) = true) calls →
       (length (run_callbacks calls w).2 ≤ 1)%nat).
Proof.
  intros Hclaim.
  specialize (Hclaim two_calls pending_world "tok").
  assert (Hpre : Forall (λ call : Z * CallbackArgs * Collaborators,
                           arg_state call.1.2 = Some "tok"
                           ∧ truthy (arg_code call.1.2) = true) two_calls)
    by (repeat constructor).
  specialize (Hclaim Hpre). vm_compute in Hclaim. lia.
Qed.

(** The same with the two calls interleaved: both arrive before either
    exchange has settled, and both start an exchange. *)
Example concurrent_callbacks_both_exchange :
  exchanges
    (@run IntegerHost.host
         [ EvCallback 2000 (call_with_code "tok" "abc");
           EvCallback 2001 (call_with_code "tok" "abc");
           EvSettle 0 (Fulfilled tt);
           EvSettle 0 (Rejected (ThrownValue (Some "invalid_grant") "Error")) ]
       (step (EvStart 1000 1000 "client" "tok" port_3000_config) init))
  = [ mkSuspended "abc" "http://localhost:3000/oauth-callback" "tok" 0%nat;
      mkSuspended "abc" "http://localhost:3000/oauth-callback" "tok" 0%nat ].
Proof. vm_compute. reflexivity. Qed.

(** ** Failures of the collaborators *)

(** A rejection with any value other than [undefined] and [null] is turned
    into a recorded failure; a fulfilled exchange into a recorded success.
    No exception leaves the call in these cases. *)
Lemma callback_returns_unless_nullish now a c w :
  (∀ code uri, collaborate c code uri ≠ Rejected ThrownNullish) →
  ∃ r, (completeOAuthCallback now a c w).1.1 = Returned r
       ∧ (∀ k, (completeOAuthCallback now a c w).2 = [k] →
               (∃ e, collaborate c (x_code k) (x_redirectUri k) = Rejected e) →
               success r = false).
Proof.
  intros Hok. unfold completeOAuthCallback.
  destruct (callback_enter now a w) as [[r|k] w1]; simpl.
  - exists r. split; [done | ]. intros k [=].
  - specialize (Hok (x_code k) (x_redirectUri k)). unfold callback_settle.
    destruct (collaborate c (x_code k) (x_redirectUri k)) as [[]|[|m s]] eqn:Hco;
      simpl.
    + eexists. split; [done | ]. intros k' [= <-] [e He]. congruence.
    + done.
    + eexists. split; [done | ]. done.
Qed.

(** C9 at its failing input: when the exchange rejects with [undefined],
    reading [e.message] in the [catch] block raises a [TypeError] that
    leaves the call; no result is recorded and the session stays pending. *)
Lemma nullish_rejection_escapes :
  (completeOAuthCallback 2000 (call_with_code "tok" "abc")
     rejecting_with_undefined pending_world).1.1 = ThrewTypeError
  ∧ (getOAuthStatus 2000 (Some "tok")
       (completeOAuthCallback 2000 (call_with_code "tok" "abc")
          rejecting_with_undefined pending_world).1.2).1 = status_pending.
Proof. split; vm_compute; reflexivity. Qed.

(** ** Traces of the reactive system *)

Section Traces.
Context `{JsRuntime}.

Lemma extends_refl s : extends s s.
Proof. split; [lia | done | exists []; by rewrite app_nil_r]. Qed.

Lemma extends_trans s1 s2 s3 : extends s1 s2 → extends s2 s3 → extends s1 s3.
Proof.
  intros [Hn1 Hr1 [n1 Hx1]] [Hn2 Hr2 [n2 Hx2]]. split.
  - lia.
  - intros l Hl. rewrite Hr2 by lia. by apply Hr1.
  - exists (n1 ++ n2)%list. by rewrite Hx2, Hx1, app_assoc.
Qed.

Lemma cleanup_refs now w :
  (∀ k l, sessions w !! k = Some (ERef l) → (l < next_loc w)%nat) →
  ∀ k l, sessions (cleanupExpiredSessions now w) !! k = Some (ERef l) →
         (l < next_loc w)%nat.
Proof. intros Hw k l Hk. apply cleanup_lookup_Some in Hk as [Hk _]. eauto. Qed.

Lemma record_result_refs w st l r :
  (l < next_loc w)%nat →
  (∀ k l', sessions w !! k = Some (ERef l') → (l' < next_loc w)%nat) →
  ∀ k l', sessions (record_result w st l r) !! k = Some (ERef l') →
          (l' < next_loc w)%nat.
Proof.
  intros Hl Hw k l'. simpl. rewrite lookup_insert. case_decide.
  - by intros [= <-].
  - apply Hw.
Qed.

(** A consistent system with its world replaced by one that keeps the
    allocation pointer and every redirect URI. *)
Lemma consistent_same_objects s w' :
  consistent s →
  next_loc w' = next_loc (world s) →
  (∀ l, redirectUri (heap w' l) = redirectUri (heap (world s) l)) →
  (∀ k l, sessions w' !! k = Some (ERef l) → (l < next_loc w')%nat) →
  consistent (mkSystem w' (inflight s) (exchanges s))
  ∧ extends s (mkSystem w' (inflight s) (exchanges s)).
Proof.
  intros [Hr Hi Hx Hb] Hn Hu Hw. split; split; simpl.
  - done.
  - by rewrite Hn.
  - by rewrite Hn.
  - eapply Forall_impl; [exact Hb | ]. intros x Hx'. simpl in Hx'. by rewrite Hu.
  - lia.
  - intros l _. apply Hu.
  - exists []. by rewrite app_nil_r.
Qed.

Lemma step_consistent e s :
  consistent s → consistent (step e s) ∧ extends s (step e s).
Proof.
  intros Hs. pose proof Hs as [Hr Hi Hx Hb]. destruct e as [n1 n2 cid tok cfg|now st|now a|i o]; simpl.
  - (* startOAuthSession *)
    split; split; simpl.
    + intros k l. rewrite lookup_insert. case_decide.
      * intros [= <-]. lia.
      * intros Hk. apply cleanup_refs in Hk; [lia | done].
    + eapply Forall_impl; [exact Hi | ]. simpl. intros; lia.
    + eapply Forall_impl; [exact Hx | ]. simpl. intros; lia.
    + apply Forall_forall. intros x Hin.
      rewrite Forall_forall in Hb, Hx.
      rewrite heap_set_other by (specialize (Hx x Hin); simpl in Hx; lia).
      by apply Hb.
    + lia.
    + intros l Hl. by rewrite heap_set_other by lia.
    + exists []. by rewrite app_nil_r.
  - (* getOAuthStatus *)
    rewrite getOAuthStatus_world.
    apply consistent_same_objects; [done | done | done | ].
    by apply cleanup_refs.
  - (* the synchronous prefix of completeOAuthCallback *)
    destruct (callback_enter_cases now a (world s)) as [Hm | [He | [l Hl]]].
    + unfold callback_enter in *. destruct (truthy (arg_state a)); simpl in *.
      * destruct (sessions_get _ (arg_state a)); simpl in *; [discriminate | ].
        destruct (truthy (arg_error a)); [discriminate | ].
        destruct (truthy (arg_code a)); [ | discriminate].
        destruct (arg_authManager a) as [|msg]; [discriminate | ].
        simpl in Hm. injection Hm. intros. discriminate.
      * apply consistent_same_objects; [done | done | done | ].
        by apply cleanup_refs.
    + unfold callback_enter in *. destruct (truthy (arg_state a)); simpl in *.
      * destruct (sessions_get _ (arg_state a)); simpl in *.
        -- apply consistent_same_objects; [done | done | done | ].
           by apply cleanup_refs.
        -- destruct (truthy (arg_error a)); [discriminate | ].
           destruct (truthy (arg_code a)); [ | discriminate].
           destruct (arg_authManager a) as [|msg]; [discriminate | ].
           simpl in He. injection He. intros. discriminate.
      * discriminate.
    + assert (Hlt : (l < next_loc (world s))%nat).
      { apply sessions_get_ref in Hl as (k & _ & Hk).
        by apply cleanup_refs in Hk. }
      unfold callback_enter. rewrite Hl.
      destruct (truthy (arg_state a)); simpl.
      2:{ apply consistent_same_objects; [done | done | done | ].
          by apply cleanup_refs. }
      assert (Hrec : ∀ r,
        consistent (mkSystem (record_result (cleanupExpiredSessions now (world s))
                                (param_text (arg_state a)) l r)
                      (inflight s) (exchanges s))
        ∧ extends s (mkSystem (record_result (cleanupExpiredSessions now (world s))
                                 (param_text (arg_state a)) l r)
                       (inflight s) (exchanges s))).
      { intros r. apply consistent_same_objects; [done | done | | ].
        - intros l'. exact (record_result_redirectUri _ _ l r l').
        - apply record_result_refs; [done | by apply cleanup_refs]. }
      destruct (truthy (arg_error a)); [apply Hrec | ].
      destruct (truthy (arg_code a)); simpl; [ | apply Hrec].
      destruct (arg_authManager a) as [|msg]; simpl; [ | apply Hrec].
      split; split; simpl.
      * by apply cleanup_refs.
      * apply Forall_app. split; [done | ]. by repeat constructor.
      * apply Forall_app. split; [done | ]. by repeat constructor.
      * apply Forall_app. split; [done | ]. by repeat constructor.
      * lia.
      * done.
      * by eexists.
  - (* the continuation of a parked callback *)
    destruct (inflight s !! i) as [k|] eqn:Hk; [ | split; [done | apply extends_refl]].
    assert (Hlt : (x_session k < next_loc (world s))%nat).
    { rewrite Forall_forall in Hi. apply Hi. by eapply list_elem_of_lookup_2. }
    assert (Hi' : Forall (λ x, (x_session x < next_loc (world s))%nat)
                    (take i (inflight s) ++ drop (S i) (inflight s))).
    { apply Forall_app. split; [by apply Forall_take | by apply Forall_drop]. }
    assert (Hsame : ∀ w',
      next_loc w' = next_loc (world s) →
      (∀ l, redirectUri (heap w' l) = redirectUri (heap (world s) l)) →
      (∀ k l, sessions w' !! k = Some (ERef l) → (l < next_loc w')%nat) →
      consistent (mkSystem w' (take i (inflight s) ++ drop (S i) (inflight s))
                    (exchanges s))
      ∧ extends s (mkSystem w' (take i (inflight s) ++ drop (S i) (inflight s))
                     (exchanges s))).
    { intros w' Hn Hu Hw. split; split; simpl.
      - done.
      - by rewrite Hn.
      - by rewrite Hn.
      - eapply Forall_impl; [exact Hb | ]. intros x Hx'. simpl in Hx'.
        by rewrite Hu.
      - lia.
      - intros l _. apply Hu.
      - exists []. by rewrite app_nil_r. }
    unfold callback_settle. destruct o as [[]|[|m str]]; simpl.
    + apply Hsame; [done | intros l; apply record_result_redirectUri | ].
      by apply record_result_refs.
    + by apply Hsame.
    + apply Hsame; [done | intros l; apply record_result_redirectUri | ].
      by apply record_result_refs.
Qed.

Lemma init_consistent : consistent init.
Proof.
  split; simpl; try by constructor.
  intros k l. by rewrite lookup_empty.
Qed.

Lemma run_consistent evs : ∀ s,
  consistent s → consistent (run evs s) ∧ extends s (run evs s).
Proof.
  induction evs as [|e evs IH]; intros s Hs; simpl.
  - split; [done | apply extends_refl].
  - destruct (step_consistent e s Hs) as [Hs1 He1].
    destruct (IH (step e s) Hs1) as [Hs2 He2].
    split; [done | by eapply extends_trans].
Qed.

(** C8. Take any history of the module, then a [startOAuthSession] call,
    then any further history (other sessions being started, polls,
    callbacks with arbitrary arguments, parked callbacks resumed in any
    order).  Every token exchange started on behalf of the session object
    that call created was given, as [redirectUri], exactly the
    [redirect_uri] that call computed and stored in the session: the
    request parameters of the callback play no part in it. *)
Theorem exchange_uses_redirect_recorded_at_creation
    (before after : list event) (now1 now2 : Z) (clientId tok : string)
    (config : jsvalue) (x : Suspended) :
  x ∈ exchanges (run after (step (EvStart now1 now2 clientId tok config)
                              (run before init))) →
  x_session x = next_loc (world (run before init)) →
  x_redirectUri x
  = redirect_uri (startOAuthSession now1 now2 clientId tok config
                    (world (run before init))).1
  ∧ redirectUri
      (heap (startOAuthSession now1 now2 clientId tok config
               (world (run before init))).2 (x_session x))
    = redirect_uri (startOAuthSession now1 now2 clientId tok config
                      (world (run before init))).1.
Proof.
  intros Hin Hx.
  destruct (run_consistent before init init_consistent) as [Hs1 _].
  set (s1 := run before init) in *.
  destruct (step_consistent (EvStart now1 now2 clientId tok config) s1 Hs1)
    as [Hs1' _].
  set (s1' := step (EvStart now1 now2 clientId tok config) s1) in *.
  destruct (run_consistent after s1' Hs1') as [Hs2 He2].
  assert (Hcreated :
    redirectUri (heap (world s1') (next_loc (world s1)))
    = redirect_uri (startOAuthSession now1 now2 clientId tok config (world s1)).1).
  { simpl. by rewrite heap_set_same. }
  split.
  - pose proof (exchanges_bound _ Hs2) as Hb. rewrite Forall_forall in Hb.
    rewrite (Hb x Hin), Hx.
    rewrite (redirectUri_kept _ _ He2) by (simpl; lia).
    exact Hcreated.
  - rewrite Hx. exact Hcreated.
Qed.

End Traces.

Lemma exchange_uses_redirect_recorded_at_creation_witness :
  sample_exchange
    ∈ exchanges (run sample_after
                   (step (EvStart 1000 1000 "client" "tok" port_3000_config)
                      (run sample_before init)))
  ∧ x_session sample_exchange = next_loc (world (run sample_before init))
  ∧ x_redirectUri sample_exchange
    = redirect_uri (startOAuthSession 1000 1000 "client" "tok" port_3000_config
                      (world (run sample_before init))).1.
Proof.
  assert (H1 : sample_exchange
    ∈ exchanges (run sample_after
                   (step (EvStart 1000 1000 "client" "tok" port_3000_config)
                      (run sample_before init)))).
  { vm_compute. apply list_elem_of_here. }
  assert (H2 : x_session sample_exchange = next_loc (world (run sample_before init)))
    by reflexivity.
  split; [exact H1 | split; [exact H2 | ]].
  exact (proj1 (exchange_uses_redirect_recorded_at_creation sample_before
                  sample_after
                  1000 1000 "client" "tok" port_3000_config sample_exchange
                  H1 H2)).
Defined.

(** ** The session initiator *)

Section InitiatorProperties.
Context `{JsRuntime}.



End InitiatorProperties.

(** The example of the specification, and two fallbacks, on the integer
    host. *)
Example start_with_port_3000 :
  redirect_uri
    (startOAuthSession 1000 1000 "client" "tok" port_3000_config empty_world).1
  = "http://localhost:3000/oauth-callback".
Proof. reflexivity. Qed.

Example start_with_string_port :
  redirect_uri
    (startOAuthSession 1000 1000 "client" "tok" string_port_config
       empty_world).1
  = "http://localhost:8080/oauth-callback".
Proof. reflexivity. Qed.

Example start_with_malformed_port :
  redirect_uri
    (startOAuthSession 1000 1000 "client" "tok" malformed_port_config
       empty_world).1
  = "http://localhost:3000/oauth-callback"
  ∧ redirect_uri
      (startOAuthSession 1000 1000 "client" "tok" null_config empty_world).1
    = "http://localhost:3000/oauth-callback".
Proof. split; reflexivity. Qed.

Example poll_right_after_start :
  (getOAuthStatus 1000 (Some "tok")
     (startOAuthSession 1000 1000 "client" "tok" port_3000_config
        empty_world).2).1
  = status_pending.
Proof. vm_compute. reflexivity. Qed.

(** ** The authorization URL *)

Lemma append_cons x (a b : string) : String x a +:+ b = String x (a +:+ b).
Proof. reflexivity. Qed.

Lemma append_nil (b : string) : EmptyString +:+ b = b.
Proof. reflexivity. Qed.

Lemma append_assoc (a b c : string) : (a +:+ b) +:+ c = a +:+ (b +:+ c).
Proof.
  induction a as [|x a IH]; [done | ].
  by rewrite !append_cons, IH.
Qed.

Lemma occurs_append c a b : occurs c (a +:+ b) = occurs c a || occurs c b.
Proof.
  induction a as [|x a IH]; [done | ].
  rewrite append_cons. simpl. by rewrite IH, orb_assoc.
Qed.

Lemma form_encode_byte_clean x :
  occurs "&" (form_encode_byte x) = false
  ∧ occurs "=" (form_encode_byte x) = false
  ∧ occurs "#" (form_encode_byte x) = false.
Proof. each_byte x; vm_compute; done. Qed.

Lemma form_encode_clean s :
  occurs "&" (form_encode s) = false
  ∧ occurs "=" (form_encode s) = false
  ∧ occurs "#" (form_encode s) = false.
Proof.
  induction s as [|x s (IH1 & IH2 & IH3)]; simpl; [done | ].
  destruct (form_encode_byte_clean x) as (H1 & H2 & H3).
  rewrite !occurs_append, H1, H2, H3, IH1, IH2, IH3. done.
Qed.

Lemma form_decode_encode_byte x t :
  form_decode (form_encode_byte x +:+ t) = String x (form_decode t).
Proof. each_byte x; reflexivity. Qed.

(** Decoding inverts encoding. *)
Lemma form_decode_encode s : form_decode (form_encode s) = s.
Proof.
  induction s as [|x s IH]; simpl; [done | ].
  by rewrite form_decode_encode_byte, IH.
Qed.

Lemma split_on_whole sep a :
  occurs sep a = false → split_on sep a = [a].
Proof.
  induction a as [|x a IH]; simpl; [done | ].
  intros [Hx Ha]%orb_false_iff. rewrite Hx, (IH Ha). done.
Qed.

Lemma split_on_first sep a b :
  occurs sep a = false →
  split_on sep (a +:+ String sep b) = a :: split_on sep b.
Proof.
  induction a as [|x a IH].
  - intros _. rewrite append_nil. simpl. by rewrite Ascii.eqb_refl.
  - rewrite append_cons. simpl.
    intros [Hx Ha]%orb_false_iff. rewrite Hx, (IH Ha). done.
Qed.

Lemma split_pair_first a b :
  occurs "=" a = false → split_pair (a +:+ String "=" b) = (a, b).
Proof.
  induction a as [|x a IH]; [done | ].
  rewrite append_cons. simpl.
  intros [Hx Ha]%orb_false_iff. rewrite Hx, (IH Ha). done.
Qed.

Lemma parse_segment_pair k v :
  parse_segment (form_encode k +:+ String "=" (form_encode v)) = Some (k, v).
Proof.
  unfold parse_segment.
  rewrite split_pair_first by apply form_encode_clean.
  rewrite !form_decode_encode.
  by destruct (form_encode k).
Qed.

Lemma pair_segment_clean c k v :
  occurs c (form_encode k) = false →
  occurs c (form_encode v) = false →
  Ascii.eqb "=" c = false →
  occurs c (form_encode k +:+ String "=" (form_encode v)) = false.
Proof.
  intros Hk Hv Hc. rewrite occurs_append. cbn [occurs].
  by rewrite Hk, Hv, Hc.
Qed.

Lemma toString_single k v :
  URLSearchParams_toString [(k, v)]
  = form_encode k +:+ String "=" (form_encode v).
Proof. reflexivity. Qed.

Lemma toString_cons k v p rest :
  URLSearchParams_toString ((k, v) :: p :: rest)
  = (form_encode k +:+ String "=" (form_encode v))
      +:+ String "&" (URLSearchParams_toString (p :: rest)).
Proof. by rewrite append_assoc. Qed.

Lemma omap_cons_Some {A B} (f : A → option B) x y (l : list A) :
  f x = Some y → omap f (x :: l) = y :: omap f l.
Proof. intros Hx. simpl. by rewrite Hx. Qed.

(** What the serializer writes, the parser reads back: the same names and
    values, in the same order. *)
Lemma parse_query_toString params :
  parse_query (URLSearchParams_toString params) = params.
Proof.
  induction params as [|[k v] rest IH]; [done | ].
  destruct rest as [|p rest].
  - unfold parse_query. rewrite toString_single.
    rewrite split_on_whole
      by (apply pair_segment_clean; [apply form_encode_clean.. | done]).
    by rewrite (omap_cons_Some _ _ (k, v)) by apply parse_segment_pair.
  - unfold parse_query in *. rewrite toString_cons.
    rewrite split_on_first
      by (apply pair_segment_clean; [apply form_encode_clean.. | done]).
    rewrite (omap_cons_Some _ _ (k, v)) by apply parse_segment_pair.
    by rewrite IH.
Qed.

Lemma toString_no_fragment params :
  occurs "#" (URLSearchParams_toString params) = false.
Proof.
  induction params as [|[k v] rest IH]; [done | ].
  destruct rest as [|p rest].
  - rewrite toString_single.
    apply pair_segment_clean; [apply form_encode_clean.. | done].
  - rewrite toString_cons, occurs_append. cbn [occurs]. rewrite IH.
    rewrite pair_segment_clean; [done | apply form_encode_clean.. | done].
Qed.

(** C6. [buildAuthUrl] is a function of [(state, redirectUri, clientId)]
    alone: it reads and writes no module state (the embedding takes and
    returns no [World], as the source touches none), so equal inputs give
    the same URL.  The URL is the provider's authorization endpoint, a [?],
    and a query string without fragment that the urlencoded parser reads
    back as exactly these seven parameters, in this order: [access_type]
    [offline], [scope] the five scopes joined by spaces, [state],
    [prompt] [consent], [response_type] [code], [client_id] and
    [redirect_uri]. *)
Theorem buildAuthUrl_query_parameters (clientId st uri : string) :
  ∃ q,
    buildAuthUrl clientId st uri
    = "https://accounts.google.com/o/oauth2/v2/auth?" +:+ q
    ∧ occurs "#" q = false
    ∧ parse_query q
      = [ ("access_type", "offline");
          ("scope",
           "https://www.googleapis.com/auth/cloud-platform https://www.googleapis.com/auth/userinfo.email https://www.googleapis.com/auth/userinfo.profile https://www.googleapis.com/auth/cclog https://www.googleapis.com/auth/experimentsandconfigs");
          ("state", st);
          ("prompt", "consent");
          ("response_type", "code");
          ("client_id", clientId);
          ("redirect_uri", uri) ].
Proof.
  exists (URLSearchParams_toString (auth_params clientId st uri)).
  split; [ | split].
  - unfold buildAuthUrl, auth_endpoint. by rewrite <- append_assoc.
  - apply toString_no_fragment.
  - by rewrite parse_query_toString.
Qed.

Example buildAuthUrl_sample :
  buildAuthUrl "my client" "a&b=c" "http://localhost:3000/oauth-callback"
  = "https://accounts.google.com/o/oauth2/v2/auth?access_type=offline&scope=https%3A%2F%2Fwww.googleapis.com%2Fauth%2Fcloud-platform+https%3A%2F%2Fwww.googleapis.com%2Fauth%2Fuserinfo.email+https%3A%2F%2Fwww.googleapis.com%2Fauth%2Fuserinfo.profile+https%3A%2F%2Fwww.googleapis.com%2Fauth%2Fcclog+https%3A%2F%2Fwww.googleapis.com%2Fauth%2Fexperimentsandconfigs&state=a%26b%3Dc&prompt=consent&response_type=code&client_id=my+client&redirect_uri=http%3A%2F%2Flocalhost%3A3000%2Foauth-callback".
Proof. vm_compute. reflexivity. Qed.

(** ** The result page *)

Lemma append_nil_r (s : string) : s +:+ EmptyString = s.
Proof. induction s as [|x s IH]; [done | by rewrite append_cons, IH]. Qed.

Lemma replaceAll_append p r a b :
  replaceAll p r (a +:+ b) = replaceAll p r a +:+ replaceAll p r b.
Proof.
  induction a as [|x a IH]; [done | ].
  rewrite append_cons. simpl. rewrite IH.
  destruct (Ascii.eqb x p); [by rewrite append_assoc | done].
Qed.

Lemma five_replacements_append a b :
  five_replacements (a +:+ b) = five_replacements a +:+ five_replacements b.
Proof. unfold five_replacements. by rewrite !replaceAll_append. Qed.

Lemma five_replacements_byte c :
  five_replacements (String c EmptyString) = html_entity c.
Proof. each_byte c; reflexivity. Qed.

(** Replacing [&] first and the other four afterwards never touches the
    text of an entity already written, so the sequence of replacements is
    the character-wise encoding. *)
Lemma five_replacements_spec s : five_replacements s = escape_chars s.
Proof.
  induction s as [|c s IH]; [done | ].
  change (String c s) with (String c EmptyString +:+ s).
  rewrite five_replacements_append, five_replacements_byte, IH. done.
Qed.

Lemma html_entity_clean x :
  occurs "<" (html_entity x) = false
  ∧ occurs ">" (html_entity x) = false
  ∧ occurs dquote (html_entity x) = false
  ∧ occurs "'" (html_entity x) = false.
Proof. each_byte x; vm_compute; done. Qed.

Lemma escape_chars_clean s :
  occurs "<" (escape_chars s) = false
  ∧ occurs ">" (escape_chars s) = false
  ∧ occurs dquote (escape_chars s) = false
  ∧ occurs "'" (escape_chars s) = false.
Proof.
  induction s as [|x s (IH1 & IH2 & IH3 & IH4)]; [done | ].
  destruct (html_entity_clean x) as (H1 & H2 & H3 & H4). simpl.
  rewrite !occurs_append, H1, H2, H3, H4, IH1, IH2, IH3, IH4. done.
Qed.

Lemma replaceAll_removes p r s :
  occurs p r = false → occurs p (replaceAll p r s) = false.
Proof.
  intros Hr. induction s as [|x s IH]; [done | ]. simpl.
  destruct (Ascii.eqb x p) eqn:Hx.
  - by rewrite occurs_append, Hr, IH.
  - simpl. by rewrite Hx, IH.
Qed.

Lemma json_read_escaped_byte c t :
  json_read (replaceAll "<" "\u003c" (json_escape_byte c) +:+ t)
  = read_more c (json_read t).
Proof. each_byte c; reflexivity. Qed.

(** A string literal written by the serializer and passed through the
    replacement of [<] is read back as the string it was written from. *)
Lemma json_read_escaped s rest :
  json_read (replaceAll "<" "\u003c" (json_escape s) +:+ String dquote rest)
  = Some (s, rest).
Proof.
  induction s as [|c s IH]; [done | ]. simpl.
  by rewrite replaceAll_append, append_assoc, json_read_escaped_byte, IH.
Qed.

Lemma strip_prefix_append p s : strip_prefix p (p +:+ s) = Some s.
Proof.
  induction p as [|c p IH]; [done | ].
  rewrite append_cons. simpl. by rewrite Ascii.eqb_refl.
Qed.

Lemma replaceAll_json_string s rest :
  replaceAll "<" "\u003c" (json_string s) +:+ rest
  = String dquote
      (replaceAll "<" "\u003c" (json_escape s) +:+ String dquote rest).
Proof.
  unfold json_string. rewrite replaceAll_append. simpl.
  by rewrite append_assoc, !append_cons, append_nil.
Qed.

(** The payload, cut at the two string values and the boolean. *)
Lemma payloadJson_shape b message state :
  payloadJson b message state
  = payload_upto_state
      +:+ (replaceAll "<" "\u003c"
             (json_escape (param_text (js_or state (Some EmptyString))))
      +:+ String dquote
            (payload_upto_success
               +:+ (json_bool b
               +:+ (payload_upto_message
               +:+ (replaceAll "<" "\u003c"
                      (json_escape
                         (param_text (js_or message (Some EmptyString))))
               +:+ String dquote "}"))))).
Proof.
  unfold payloadJson, glue. cbn [fold_right].
  rewrite !replaceAll_append.
  set (S1 := json_string (param_text (js_or state (Some EmptyString)))).
  set (S2 := json_string (param_text (js_or message (Some EmptyString)))).
  assert (Hb : replaceAll "<" "\u003c" (json_bool b) = json_bool b)
    by (by destruct b).
  rewrite Hb. subst S1 S2.
  rewrite append_nil_r.
  rewrite !replaceAll_json_string.
  reflexivity.
Qed.

Lemma script_char_spec c :
  replaceAll "<" "\u003c" (json_escape_byte c) = script_char c.
Proof. each_byte c; reflexivity. Qed.

Lemma script_text_spec s :
  replaceAll "<" "\u003c" (json_escape s) = script_text s.
Proof.
  induction s as [|c s IH]; [done | ]. simpl.
  by rewrite replaceAll_append, script_char_spec, IH.
Qed.

Lemma script_char_no_lt c : occurs "<" (script_char c) = false.
Proof. each_byte c; reflexivity. Qed.

(** Inside the script a double quote only ever follows a backslash that
    escapes it: read as a string literal, the text written for a value
    ends where the closing quote is, not before. *)
Lemma script_text_reads s rest :
  json_read (script_text s +:+ String dquote rest) = Some (s, rest).
Proof. rewrite <- script_text_spec. apply json_read_escaped. Qed.

(** C7. The page is fixed text around two places where [message] appears.
    In the first, the displayed message, each of [&], [<], [>], the double
    quote and the single quote is written as its entity and nothing else is
    changed, so none of [<], [>] and the quotes occurs there.  The second is
    the inline JSON payload: it is the object with the keys [type], [state],
    [success] and [message], in which the two string values are written
    character by character as [script_char] says ([<] as [\u003c], a quote
    or a backslash behind a backslash, control characters as escapes,
    everything else as itself); no [<] occurs in it at all, so no tag and
    no closing [script] tag can come out of [message] or [state]; and read
    back as the object literal it is, it gives exactly the [state], the
    [success] flag and the [message] that were passed (the empty string for
    a falsy one), whatever characters they contain. *)
Theorem renderOAuthResultPage_escapes_message
    (success : bool) (message state : jsparam) :
  renderOAuthResultPage success message state
  = page_before_message success
      +:+ escapeHtml message
      +:+ page_upto_payload
      +:+ payloadJson success message state
      +:+ page_rest
  ∧ escapeHtml message
    = escape_chars (match message with
                    | Some m => m
                    | None => EmptyString
                    end)
  ∧ occurs "<" (escapeHtml message) = false
  ∧ occurs ">" (escapeHtml message) = false
  ∧ occurs dquote (escapeHtml message) = false
  ∧ occurs "'" (escapeHtml message) = false
  ∧ occurs "<" (payloadJson success message state) = false
  ∧ payloadJson success message state
    = glue [ payload_upto_state;
             script_text (match state with
                          | Some k => k
                          | None => EmptyString
                          end);
             quot; payload_upto_success;
             json_bool success;
             payload_upto_message;
             script_text (match message with
                          | Some m => m
                          | None => EmptyString
                          end);
             quot; "}" ]
  ∧ read_payload (payloadJson success message state)
    = Some (match state with Some k => k | None => EmptyString end,
            success,
            match message with Some m => m | None => EmptyString end).
Proof.
  assert (Hesc : escapeHtml message
                 = escape_chars (match message with
                                 | Some m => m
                                 | None => EmptyString
                                 end)).
  { change (escapeHtml message)
      with (five_replacements (param_text (js_or message (Some EmptyString)))).
    rewrite five_replacements_spec. by destruct message as [[|c m]|]. }
  assert (Hor : ∀ p : jsparam,
            param_text (js_or p (Some EmptyString))
            = match p with Some x => x | None => EmptyString end).
  { by intros [[|c x]|]. }
  split; [ | split; [exact Hesc | ]].
  - unfold renderOAuthResultPage, page_before_message, glue.
    cbn [fold_right]. rewrite !append_assoc, !append_nil_r. done.
  - rewrite Hesc.
    destruct (escape_chars_clean
                (match message with Some m => m | None => EmptyString end))
      as (H1 & H2 & H3 & H4).
    repeat (split; [done | ]).
    split; [by apply replaceAll_removes | ].
    rewrite payloadJson_shape, !script_text_spec, !Hor.
    split.
    + unfold glue, quot. cbn [fold_right].
      by rewrite !append_cons, !append_nil.
    + unfold read_payload.
      rewrite strip_prefix_append. cbn [mbind option_bind].
      rewrite script_text_reads. cbn [mbind option_bind].
      rewrite strip_prefix_append. cbn [mbind option_bind].
      destruct success; cbn [json_bool].
      * change (read_bool ("true" +:+ ?r)) with (Some (true, r)).
        cbn [mbind option_bind].
        rewrite strip_prefix_append. cbn [mbind option_bind].
        by rewrite script_text_reads.
      * change (read_bool ("false" +:+ ?r)) with (Some (false, r)).
        cbn [mbind option_bind].
        rewrite strip_prefix_append. cbn [mbind option_bind].
        by rewrite script_text_reads.
Qed.

Example render_hostile_message :
  escapeHtml (Some "</script><a href='x'>&")
  = "&lt;/script&gt;&lt;a href=&#39;x&#39;&gt;&amp;"
  ∧ payloadJson false (Some "</script>") (Some "s<t")
    = glue [ "{"; quot; "type"; quot; ":"; quot; "oauth_result"; quot; ",";
             quot; "state"; quot; ":"; quot; "s\u003ct"; quot; ",";
             quot; "success"; quot; ":false,";
             quot; "message"; quot; ":"; quot; "\u003c/script>"; quot; "}" ].
Proof. split; vm_compute; reflexivity. Qed.

Example payload_with_markup_reads_back :
  read_payload (payloadJson false (Some "</script><!--") (Some "s<t"))
  = Some ("s<t", false, "</script><!--").
Proof. vm_compute. reflexivity. Qed.

(** * Further properties of the session flow *)

(** ** Polling *)

Lemma is_stale_later now now' h e :
  now ≤ now' → is_stale now h e = true → is_stale now' h e = true.
Proof.
  intros Hle. rewrite !is_stale_true.
  intros [He | (l & He & [Hc | Ha])]; [by left | right; exists l.. ].
  - auto.
  - split; [done | right; lia].
Qed.

Lemma getOAuthStatus_view now k w :
  (getOAuthStatus now (Some k) w).1 = poll_view now w k.
Proof.
  unfold poll_view.
  destruct (sessions_get (cleanupExpiredSessions now w) (Some k)) as [|l] eqn:Hg.
  - rewrite (getOAuthStatus_absent _ _ _ Hg).
    apply cleanup_get_falsy in Hg.
    destruct (sessions w !! k) as [[|l]|] eqn:Hk; [done | | done].
    rewrite cleanup_lookup_None in Hg. by rewrite (Hg _ Hk).
  - rewrite (getOAuthStatus_found _ _ _ _ Hg).
    apply cleanup_get_ref in Hg as [Hg Hf]. simpl in Hg.
    destruct (sessions w !! k) as [e|] eqn:Hk; simpl in Hg; [subst e | done].
    assert (Hs : is_stale now (heap w) (ERef l) = false)
      by (apply is_stale_false; eauto).
    by rewrite Hs.
Qed.

Lemma cleanup_absorbs now now' w :
  now ≤ now' →
  cleanupExpiredSessions now' (cleanupExpiredSessions now w)
  = cleanupExpiredSessions now' w.
Proof.
  intros Hle.
  assert (Hs : sessions (cleanupExpiredSessions now' (cleanupExpiredSessions now w))
               = sessions (cleanupExpiredSessions now' w)).
  { apply map_eq; intros k. apply option_eq; intros e.
    rewrite !cleanup_lookup_Some, cleanup_heap. split; [tauto | ].
    intros [Hk Hst]. repeat split; try done.
    destruct (is_stale now (heap w) e) eqn:Hn; [ | done].
    by rewrite (is_stale_later now now' _ _ Hle Hn) in Hst. }
  unfold cleanupExpiredSessions at 1. rewrite cleanup_heap.
  change (filter _ (sessions (cleanupExpiredSessions now w)))
    with (sessions (cleanupExpiredSessions now' (cleanupExpiredSessions now w))).
  rewrite Hs. reflexivity.
Qed.

Section FlowProperties.
Context `{JsRuntime}.

(** X1. A poll of the state just returned by [startOAuthSession] answers
    [pending] exactly as long as the advertised [expires_in_ms] has not
    elapsed since the session's creation time, the boundary included, and
    [expired] afterwards; this holds whatever the store held before, also
    when the token was already in use.  (A creation time of 0 is falsy and
    makes the session expired at once.) *)
Theorem poll_after_start
    (now1 now2 now : Z) (clientId tok : string) (config : jsvalue) (w : World) :
  (getOAuthStatus now (Some tok)
     (startOAuthSession now1 now2 clientId tok config w).2).1
  = if Z.eqb now2 0
       || Z.ltb (expires_in_ms
                   (startOAuthSession now1 now2 clientId tok config w).1)
            (now - now2)
    then status_expired else status_pending.
Proof.
  rewrite getOAuthStatus_view. unfold poll_view. simpl sessions.
  rewrite lookup_insert_eq. simpl. rewrite heap_set_same. simpl.
  by destruct (Z.eqb now2 0 || Z.ltb SESSION_TTL_MS (now - now2)).
Qed.

End FlowProperties.

(** X2. A session that is in the store with a truthy creation time and an
    age of at most the TTL (an age equal to the TTL included) is never
    reported expired: the poll answers [pending] while it has no result and
    [completed] with that result once it has one, and the session stays
    bound. *)
Theorem live_session_is_reported
    (now : Z) (st : jsparam) (w : World) (l : loc) :
  sessions_get w st = ERef l →
  createdAt (heap w l) ≠ 0 →
  now - createdAt (heap w l) ≤ SESSION_TTL_MS →
  (getOAuthStatus now st w).1
  = match result (heap w l) with
    | Some r => status_completed r
    | None => status_pending
    end
  ∧ sessions_get (getOAuthStatus now st w).2 st = ERef l.
Proof.
  intros Hg Hc Ha.
  assert (Hf : sessions_get (cleanupExpiredSessions now w) st = ERef l)
    by (apply cleanup_get_ref; split; [done | by split]).
  split; [by apply getOAuthStatus_found | by rewrite getOAuthStatus_world].
Qed.

Lemma live_session_is_reported_witness :
  sessions_get completed_world (Some "tok") = ERef 0%nat
  ∧ createdAt (heap completed_world 0%nat) ≠ 0
  ∧ 1801000 - createdAt (heap completed_world 0%nat) ≤ SESSION_TTL_MS
  ∧ (getOAuthStatus 1801000 (Some "tok") completed_world).1
    = status_completed (mkResult true "ok").
Proof.
  assert (H1 : sessions_get completed_world (Some "tok") = ERef 0%nat)
    by (vm_compute; reflexivity).
  assert (H2 : createdAt (heap completed_world 0%nat) ≠ 0)
    by (vm_compute; discriminate).
  assert (H3 : 1801000 - createdAt (heap completed_world 0%nat)
               ≤ SESSION_TTL_MS) by (vm_compute; discriminate).
  repeat (split; [assumption | ]).
  exact (proj1 (live_session_is_reported 1801000 (Some "tok") completed_world
                  0%nat H1 H2 H3)).
Defined.

(** X3. Polling is transparent: when the clock does not run backwards, a
    poll (of any state) leaves behind a store on which every later poll
    answers, and leaves the store, exactly as if the earlier poll had never
    been made.  Lazy eviction at intermediate times loses nothing and keeps
    nothing that a later eviction would not. *)
Theorem earlier_poll_is_unobservable
    (now now' : Z) (st st' : jsparam) (w : World) :
  now ≤ now' →
  getOAuthStatus now' st' (getOAuthStatus now st w).2
  = getOAuthStatus now' st' w.
Proof.
  intros Hle. rewrite getOAuthStatus_world.
  unfold getOAuthStatus. by rewrite (cleanup_absorbs now now' w Hle).
Qed.

Lemma earlier_poll_is_unobservable_witness :
  2000 ≤ 1801001
  ∧ getOAuthStatus 1801001 (Some "tok")
      (getOAuthStatus 2000 (Some "other") pending_world).2
    = getOAuthStatus 1801001 (Some "tok") pending_world.
Proof.
  assert (H1 : 2000 ≤ 1801001) by lia.
  split; [exact H1 | ].
  exact (earlier_poll_is_unobservable 2000 1801001 (Some "other") (Some "tok")
           pending_world H1).
Defined.

(** ** The callback processor, branch by branch *)

(** X4. A call starts a token exchange if and only if its state is truthy,
    a session is bound to it after the eviction, no [error] is supplied, a
    [code] is, and it is given an [authManager]; and it never starts more
    than one.  In particular a call with an [error] starts none even when
    it also carries a code. *)
Theorem exchange_started_iff
    (now : Z) (a : CallbackArgs) (c : Collaborators) (w : World) :
  ((completeOAuthCallback now a c w).2 ≠ [] ↔
     truthy (arg_state a) = true
     ∧ (∃ l, sessions_get (cleanupExpiredSessions now w) (arg_state a) = ERef l)
     ∧ truthy (arg_error a) = false
     ∧ truthy (arg_code a) = true
     ∧ arg_authManager a = AuthManagerObject)
  ∧ (length (completeOAuthCallback now a c w).2 ≤ 1)%nat.
Proof.
  unfold completeOAuthCallback, callback_enter.
  destruct (truthy (arg_state a)); simpl.
  2:{ split; [ | lia]. split; [done | intros (Hf & _); discriminate]. }
  destruct (sessions_get (cleanupExpiredSessions now w) (arg_state a)) as [|l];
    simpl.
  { split; [ | lia]. split; [done | intros (_ & [l Hl] & _); discriminate]. }
  destruct (truthy (arg_error a)); simpl.
  { split; [ | lia]. split; [done | intros (_ & _ & Hf & _); discriminate]. }
  destruct (truthy (arg_code a)); simpl.
  2:{ split; [ | lia].
      split; [done | intros (_ & _ & _ & Hf & _); discriminate]. }
  destruct (arg_authManager a) as [|msg]; simpl.
  2:{ split; [ | lia].
      split; [done | intros (_ & _ & _ & _ & Hf); discriminate]. }
  destruct (callback_settle _ _ _) as [out w2]. simpl.
  split; [ | lia]. split; [eauto 10 | done].
Qed.

(** X5. When the provider redirect carries an [error] and the session is
    found, the call fails the session without looking at [code]: it returns
    the failure whose message is the prefix followed by [errorDescription]
    when that is truthy and by [error] otherwise, starts no exchange, and a
    poll at the same instant answers [completed] with [success] false and
    that message. *)
Theorem provider_error_fails_session
    (now : Z) (a : CallbackArgs) (c : Collaborators) (w : World) (l : loc) :
  truthy (arg_state a) = true →
  sessions_get (cleanupExpiredSessions now w) (arg_state a) = ERef l →
  truthy (arg_error a) = true →
  (completeOAuthCallback now a c w).1.1
  = Returned (mkResult false
                ("授权失败: "
                   +:+ param_text (if truthy (arg_errorDescription a)
                                   then arg_errorDescription a
                                   else arg_error a)))
  ∧ (completeOAuthCallback now a c w).2 = []
  ∧ (getOAuthStatus now (arg_state a) (completeOAuthCallback now a c w).1.2).1
    = mkStatus "completed" (Some false)
        (Some ("授权失败: "
                 +:+ param_text (if truthy (arg_errorDescription a)
                                 then arg_errorDescription a
                                 else arg_error a))).
Proof.
  intros Hst Hl He. unfold completeOAuthCallback.
  rewrite (callback_enter_found now a w l Hst Hl). cbv zeta. rewrite He.
  cbn [fst snd]. repeat split.
  pose proof (truthy_Some _ Hst) as Hk.
  set (k := param_text (arg_state a)) in *. clearbody k. rewrite Hk.
  apply cleanup_get_ref in Hl as [_ Hf].
  set (r := mkResult false _).
  assert (Hfound : sessions_get
            (cleanupExpiredSessions now
               (record_result (cleanupExpiredSessions now w) k l r)) (Some k)
          = ERef l).
  { apply cleanup_get_ref. split; [apply record_result_get | ].
    rewrite record_result_heap, cleanup_heap. exact Hf. }
  rewrite (getOAuthStatus_found _ _ _ _ Hfound), record_result_heap. done.
Qed.

Lemma provider_error_fails_session_witness :
  truthy (arg_state denied_call) = true
  ∧ sessions_get (cleanupExpiredSessions 2000 pending_world)
      (arg_state denied_call) = ERef 0%nat
  ∧ truthy (arg_error denied_call) = true
  ∧ (completeOAuthCallback 2000 denied_call succeeding pending_world).2 = [].
Proof.
  assert (H1 : truthy (arg_state denied_call) = true) by reflexivity.
  assert (H2 : sessions_get (cleanupExpiredSessions 2000 pending_world)
                 (arg_state denied_call) = ERef 0%nat)
    by (vm_compute; reflexivity).
  assert (H3 : truthy (arg_error denied_call) = true) by reflexivity.
  repeat (split; [assumption | ]).
  exact (proj1 (proj2 (provider_error_fails_session 2000 denied_call succeeding
                         pending_world 0%nat H1 H2 H3))).
Defined.



(** X7. A result that arrives after its session has outlived the TTL is
    written to the session object, which is bound under its state again,
    but it is never reported: a poll at any time at which the session is
    over-age answers [expired]. *)
Theorem late_result_is_never_reported
    (k : Suspended) (o : Settled unit) (w : World) (r : Result) (w' : World)
    (now' : Z) :
  callback_settle k o w = (Returned r, w') →
  SESSION_TTL_MS < now' - createdAt (heap w (x_session k)) →
  sessions_get w' (Some (x_state k)) = ERef (x_session k)
  ∧ result (heap w' (x_session k)) = Some r
  ∧ (getOAuthStatus now' (Some (x_state k)) w').1 = status_expired.
Proof.
  intros Hs Hold.
  destruct (callback_settle_records k o w r w' Hs) as [Hg Hr].
  split; [done | split; [done | ]].
  assert (Hc : createdAt (heap w' (x_session k))
               = createdAt (heap w (x_session k))).
  { revert Hs. unfold callback_settle.
    destruct o as [[]|[|m s]]; intros [= <- <-]; apply record_result_keeps. }
  apply getOAuthStatus_absent.
  destruct (sessions_get (cleanupExpiredSessions now' w') (Some (x_state k)))
    as [|l] eqn:Hf; [done | ].
  apply cleanup_get_ref in Hf as [Hf [_ Hage]].
  rewrite Hg in Hf. injection Hf as <-. rewrite Hc in Hage. lia.
Qed.

Lemma late_result_is_never_reported_witness :
  callback_settle (mkSuspended "abc" "http://localhost:3000/oauth-callback"
                     "tok" 0%nat)
    (Fulfilled tt) (cleanupExpiredSessions 1802000 pending_world)
  = (Returned (mkResult true "授权成功"),
     (callback_settle (mkSuspended "abc" "http://localhost:3000/oauth-callback"
                         "tok" 0%nat)
        (Fulfilled tt) (cleanupExpiredSessions 1802000 pending_world)).2)
  ∧ SESSION_TTL_MS
    < 1802001 - createdAt (heap (cleanupExpiredSessions 1802000 pending_world)
                             0%nat)
  ∧ (getOAuthStatus 1802001 (Some "tok")
       (callback_settle (mkSuspended "abc"
                           "http://localhost:3000/oauth-callback" "tok" 0%nat)
          (Fulfilled tt) (cleanupExpiredSessions 1802000 pending_world)).2).1
    = status_expired.
Proof.
  assert (H1 : callback_settle
                 (mkSuspended "abc" "http://localhost:3000/oauth-callback"
                    "tok" 0%nat)
                 (Fulfilled tt) (cleanupExpiredSessions 1802000 pending_world)
               = (Returned (mkResult true "授权成功"),
                  (callback_settle
                     (mkSuspended "abc" "http://localhost:3000/oauth-callback"
                        "tok" 0%nat)
                     (Fulfilled tt)
                     (cleanupExpiredSessions 1802000 pending_world)).2))
    by reflexivity.
  assert (H2 : SESSION_TTL_MS
               < 1802001 - createdAt
                             (heap (cleanupExpiredSessions 1802000 pending_world)
                                0%nat)) by (vm_compute; reflexivity).
  split; [exact H1 | split; [exact H2 | ]].
  exact (proj2 (proj2 (late_result_is_never_reported _ _ _ _ _ 1802001 H1 H2))).
Defined.

Section WholeFlow.
Context `{JsRuntime}.

(** X8. The whole flow: a session is started, the provider redirects back
    with the returned state and a code while the session is within its
    TTL, and both collaborators fulfil.  Then the exchange is started once,
    with that code and the redirect URI returned at the start; the call
    returns the success result; and a poll within the TTL answers
    [completed] with the same result. *)
Theorem start_callback_poll
    (now1 now2 nowc nowp : Z) (clientId tok code : string) (config : jsvalue)
    (c : Collaborators) (w : World) :
  tok ≠ EmptyString →
  code ≠ EmptyString →
  now2 ≠ 0 →
  nowc - now2 ≤ SESSION_TTL_MS →
  nowp - now2 ≤ SESSION_TTL_MS →
  collaborate c code
    (redirect_uri (startOAuthSession now1 now2 clientId tok config w).1)
  = Fulfilled tt →
  completeOAuthCallback nowc (call_with_code tok code) c
    (startOAuthSession now1 now2 clientId tok config w).2
  = (Returned (mkResult true "授权成功"),
     (completeOAuthCallback nowc (call_with_code tok code) c
        (startOAuthSession now1 now2 clientId tok config w).2).1.2,
     [mkSuspended code
        (redirect_uri (startOAuthSession now1 now2 clientId tok config w).1)
        tok (next_loc w)])
  ∧ (getOAuthStatus nowp (Some tok)
       (completeOAuthCallback nowc (call_with_code tok code) c
          (startOAuthSession now1 now2 clientId tok config w).2).1.2).1
    = status_completed (mkResult true "授权成功").
Proof.
  intros Htok Hcode Hn2 Hc Hp Hok.
  set (started := startOAuthSession now1 now2 clientId tok config w) in *.
  assert (Hheap : heap started.2 (next_loc w)
                  = mkSession now2 (redirect_uri started.1) None)
    by (simpl; apply heap_set_same).
  assert (Hget : sessions_get started.2 (Some tok) = ERef (next_loc w))
    by (simpl; by rewrite lookup_insert_eq).
  assert (Hst : truthy (arg_state (call_with_code tok code)) = true)
    by (by apply truthy_nonempty).
  assert (Hcd : truthy (arg_code (call_with_code tok code)) = true)
    by (by apply truthy_nonempty).
  assert (Hfound : sessions_get (cleanupExpiredSessions nowc started.2)
                     (arg_state (call_with_code tok code)) = ERef (next_loc w)).
  { apply cleanup_get_ref. split; [done | ]. rewrite Hheap. by split. }
  assert (Hrun : completeOAuthCallback nowc (call_with_code tok code) c started.2
                 = (Returned (mkResult true "授权成功"),
                    record_result (cleanupExpiredSessions nowc started.2) tok
                      (next_loc w) (mkResult true "授权成功"),
                    [mkSuspended code (redirect_uri started.1) tok (next_loc w)])).
  { unfold completeOAuthCallback.
    rewrite (callback_enter_found _ _ _ _ Hst Hfound). cbv zeta.
    rewrite Hcd. cbn [arg_error arg_code arg_state arg_authManager
                      call_with_code truthy negb
                      param_text x_code x_redirectUri].
    rewrite cleanup_heap, Hheap. cbn [redirectUri]. rewrite Hok. reflexivity. }
  rewrite Hrun. split; [reflexivity | ]. cbn [fst snd].
  assert (Hfound' : sessions_get
            (cleanupExpiredSessions nowp
               (record_result (cleanupExpiredSessions nowc started.2) tok
                  (next_loc w) (mkResult true "授权成功"))) (Some tok)
          = ERef (next_loc w)).
  { apply cleanup_get_ref. split; [apply record_result_get | ].
    rewrite record_result_heap, cleanup_heap, Hheap. by split. }
  rewrite (getOAuthStatus_found _ _ _ _ Hfound'), record_result_heap. done.
Qed.

End WholeFlow.

Lemma start_callback_poll_witness :
  "tok" ≠ EmptyString
  ∧ "abc" ≠ EmptyString
  ∧ 1000 ≠ 0
  ∧ 2000 - 1000 ≤ SESSION_TTL_MS
  ∧ 3000 - 1000 ≤ SESSION_TTL_MS
  ∧ collaborate succeeding "abc"
      (redirect_uri (startOAuthSession 1000 1000 "client" "tok"
                       port_3000_config empty_world).1)
    = Fulfilled tt
  ∧ (getOAuthStatus 3000 (Some "tok")
       (completeOAuthCallback 2000 (call_with_code "tok" "abc") succeeding
          (startOAuthSession 1000 1000 "client" "tok" port_3000_config
             empty_world).2).1.2).1
    = status_completed (mkResult true "授权成功").
Proof.
  assert (H1 : "tok" ≠ EmptyString) by discriminate.
  assert (H2 : "abc" ≠ EmptyString) by discriminate.
  assert (H3 : 1000 ≠ 0) by discriminate.
  assert (H4 : 2000 - 1000 ≤ SESSION_TTL_MS) by (vm_compute; discriminate).
  assert (H5 : 3000 - 1000 ≤ SESSION_TTL_MS) by (vm_compute; discriminate).
  assert (H6 : collaborate succeeding "abc"
                 (redirect_uri (startOAuthSession 1000 1000 "client" "tok"
                                  port_3000_config empty_world).1)
               = Fulfilled tt) by reflexivity.
  repeat (split; [assumption | ]).
  exact (proj2 (start_callback_poll 1000 1000 2000 3000 "client" "tok" "abc"
                  port_3000_config succeeding empty_world H1 H2 H3 H4 H5 H6)).
Defined.

(** ** Histories of requests *)

(** The store a callback leaves when it returns from its synchronous
    prefix or parks: the evicted store, possibly with a result recorded on
    the session found under the state. *)
Lemma callback_enter_world now a w :
  (callback_enter now a w).2 = cleanupExpiredSessions now w
  ∨ ∃ k l r,
      arg_state a = Some k
      ∧ sessions (cleanupExpiredSessions now w) !! k = Some (ERef l)
      ∧ (callback_enter now a w).2
        = record_result (cleanupExpiredSessions now w) k l r.
Proof.
  unfold callback_enter.
  destruct (truthy (arg_state a)) eqn:Hst; simpl; [ | by left].
  destruct (sessions_get _ (arg_state a)) as [|l] eqn:Hg; simpl; [by left | ].
  pose proof (truthy_Some _ Hst) as Hk.
  set (k := param_text (arg_state a)) in *. clearbody k.
  assert (Hl : sessions (cleanupExpiredSessions now w) !! k = Some (ERef l)).
  { apply sessions_get_ref in Hg as (k' & Hk' & Hl). congruence. }
  destruct (truthy (arg_error a)); [right; eauto 10 | ].
  destruct (truthy (arg_code a)); simpl; [ | right; eauto 10].
  destruct (arg_authManager a) as [|msg]; simpl; [by left | right; eauto 10].
Qed.

Lemma callback_settle_world k o w :
  (callback_settle k o w).2 = w
  ∨ ∃ r, (callback_settle k o w).2 = record_result w (x_state k) (x_session k) r.
Proof.
  unfold callback_settle. destruct o as [[]|[|m s]]; simpl; eauto.
Qed.

Lemma record_result_object w k l r l' :
  createdAt (heap (record_result w k l r) l') = createdAt (heap w l')
  ∧ redirectUri (heap (record_result w k l r) l') = redirectUri (heap w l')
  ∧ (is_Some (result (heap w l')) →
     is_Some (result (heap (record_result w k l r) l'))).
Proof.
  destruct (record_result_keeps w k l r l') as [Hc Hu].
  split; [done | split; [done | ]].
  simpl. unfold heap_set. destruct (Nat.eqb l' l); [by eexists | done].
Qed.

Section TraceProperties.
Context `{JsRuntime}.

Lemma step_object e s l :
  (l < next_loc (world s))%nat →
  (l < next_loc (world (step e s)))%nat
  ∧ createdAt (heap (world (step e s)) l) = createdAt (heap (world s) l)
  ∧ redirectUri (heap (world (step e s)) l) = redirectUri (heap (world s) l)
  ∧ (is_Some (result (heap (world s) l)) →
     is_Some (result (heap (world (step e s)) l))).
Proof.
  intros Hl. destruct e as [n1 n2 cid tok cfg|now st|now a|i o]; simpl.
  - rewrite heap_set_other by lia. repeat split; [lia | done].
  - by rewrite getOAuthStatus_world.
  - assert (Hw : (l < next_loc (callback_enter now a (world s)).2)%nat
      ∧ createdAt (heap (callback_enter now a (world s)).2 l)
        = createdAt (heap (world s) l)
      ∧ redirectUri (heap (callback_enter now a (world s)).2 l)
        = redirectUri (heap (world s) l)
      ∧ (is_Some (result (heap (world s) l)) →
         is_Some (result (heap (callback_enter now a (world s)).2 l)))).
    { destruct (callback_enter_world now a (world s))
        as [-> | (k & l0 & r & _ & _ & ->)]; [done | ].
      split; [done | ].
      apply (record_result_object (cleanupExpiredSessions now (world s))). }
    by destruct (callback_enter now a (world s)) as [[r|k] w1].
  - destruct (inflight s !! i) as [k|]; [ | done]. simpl.
    destruct (callback_settle_world k o (world s)) as [-> | [r ->]]; [done | ].
    split; [done | ]. apply record_result_object.
Qed.

(** X9. Through any sequence of starts, polls, callbacks and resumed
    callbacks, a session object that exists keeps the creation time and the
    redirect URI it was created with, and once it holds a result it never
    goes back to holding none (the result itself may be overwritten by a
    later callback). *)
Theorem session_objects_are_stable (evs : list event) (s : System) (l : loc) :
  (l < next_loc (world s))%nat →
  createdAt (heap (world (run evs s)) l) = createdAt (heap (world s) l)
  ∧ redirectUri (heap (world (run evs s)) l) = redirectUri (heap (world s) l)
  ∧ (is_Some (result (heap (world s) l)) →
     is_Some (result (heap (world (run evs s)) l))).
Proof.
  revert s. induction evs as [|e evs IH]; intros s Hl; [done | ].
  destruct (step_object e s l Hl) as (Hl1 & Hc & Hu & Hr).
  destruct (IH (step e s) Hl1) as (Hc' & Hu' & Hr').
  simpl. rewrite Hc', Hu'. auto.
Qed.

Lemma cleanup_separated now s :
  separated s →
  separated (mkSystem (cleanupExpiredSessions now (world s)) (inflight s)
               (exchanges s)).
Proof.
  intros [Hm Hi Hp]. split; simpl.
  - intros k k' l [Hk _]%cleanup_lookup_Some [Hk' _]%cleanup_lookup_Some. eauto.
  - intros x k Hx [Hk _]%cleanup_lookup_Some. eauto.
  - done.
Qed.

(** Recording a result on the session bound under [k] rebinds what is
    already bound: the map does not change. *)
Lemma record_result_sessions w k l r :
  sessions w !! k = Some (ERef l) →
  sessions (record_result w k l r) = sessions w.
Proof. intros Hk. simpl. by apply insert_id. Qed.

Lemma step_separated e s :
  consistent s → separated s → separated (step e s).
Proof.
  intros [Hr Hi Hx Hb] Hsep.
  destruct e as [n1 n2 cid tok cfg|now st|now a|i o]; simpl.
  - (* startOAuthSession *)
    destruct (cleanup_separated n1 s Hsep) as [Hm1 Hi1 Hp1]. simpl in *.
    assert (Hold : ∀ k l,
      sessions (cleanupExpiredSessions n1 (world s)) !! k = Some (ERef l) →
      (l < next_loc (world s))%nat)
      by (by apply cleanup_refs).
    split; simpl.
    + intros k k' l. rewrite !lookup_insert.
      repeat case_decide; subst; try done.
      * intros [= <-] Hk'. apply Hold in Hk'. lia.
      * intros Hk [= <-]. apply Hold in Hk. lia.
      * apply Hm1.
    + intros x k Hx'. rewrite lookup_insert. case_decide.
      * intros [= Hn]. rewrite Forall_forall in Hi. specialize (Hi x Hx').
        simpl in Hi. lia.
      * by apply Hi1.
    + done.
  - (* getOAuthStatus *)
    rewrite getOAuthStatus_world. by apply cleanup_separated.
  - (* the synchronous prefix of completeOAuthCallback *)
    pose proof (cleanup_separated now s Hsep) as Hsep1.
    destruct Hsep1 as [Hm1 Hi1 Hp1]. simpl in *.
    assert (Hsame : ∀ w',
      sessions w' = sessions (cleanupExpiredSessions now (world s)) →
      separated (mkSystem w' (inflight s) (exchanges s))).
    { intros w' Hw'. split; simpl; rewrite ?Hw'; done. }
    unfold callback_enter.
    destruct (truthy (arg_state a)) eqn:Hst; simpl; [ | by apply Hsame].
    destruct (sessions_get _ (arg_state a)) as [|l] eqn:Hg; simpl;
      [by apply Hsame | ].
    pose proof (truthy_Some _ Hst) as Hk.
    set (k := param_text (arg_state a)) in *. clearbody k.
    assert (Hl : sessions (cleanupExpiredSessions now (world s)) !! k
                 = Some (ERef l)).
    { apply sessions_get_ref in Hg as (k' & Hk' & Hl). congruence. }
    destruct (truthy (arg_error a));
      [apply Hsame; by apply record_result_sessions | ].
    destruct (truthy (arg_code a)); simpl;
      [ | apply Hsame; by apply record_result_sessions].
    destruct (arg_authManager a) as [|msg]; simpl;
      [ | apply Hsame; by apply record_result_sessions].
    split; simpl.
    + done.
    + intros x k' [Hx' | ->%list_elem_of_singleton]%elem_of_app Hk'.
      * by apply Hi1.
      * simpl in *. eauto.
    + intros x y [Hx' | ->%list_elem_of_singleton]%elem_of_app
                 [Hy' | ->%list_elem_of_singleton]%elem_of_app; simpl.
      * by apply Hp1.
      * intros Hxy. symmetry. apply Hi1; [done | ]. by rewrite Hxy.
      * intros Hxy. apply Hi1; [done | ]. by rewrite <- Hxy.
      * done.
  - (* the continuation of a parked callback *)
    destruct (inflight s !! i) as [x|] eqn:Hx'; [ | done].
    destruct Hsep as [Hm Hin Hp].
    assert (Hxin : x ∈ inflight s) by (by eapply list_elem_of_lookup_2).
    assert (Hsub : ∀ y, y ∈ (take i (inflight s) ++ drop (S i) (inflight s))%list →
                        y ∈ inflight s).
    { intros y [Hy | Hy]%elem_of_app;
        [by eapply subseteq_take | by eapply subseteq_drop]. }
    destruct (callback_settle_world x o (world s)) as [-> | [r ->]].
    + split; simpl; eauto.
    + split; simpl.
      * intros k k' l. rewrite !lookup_insert.
        repeat case_decide; subst; try done.
        -- intros [= <-] Hk'. symmetry. by apply Hin.
        -- intros Hk [= <-]. by apply Hin.
        -- apply Hm.
      * intros y k Hy. apply Hsub in Hy. rewrite lookup_insert. case_decide.
        -- intros [= Hxy]. subst k. by apply Hp.
        -- by apply Hin.
      * intros y z Hy Hz. apply Hp; by apply Hsub.
Qed.

Lemma init_separated : separated init.
Proof.
  split; simpl.
  - intros k k' l. by rewrite lookup_empty.
  - intros x k Hx. by apply not_elem_of_nil in Hx.
  - intros x y Hx. by apply not_elem_of_nil in Hx.
Qed.

Lemma run_separated evs : ∀ s,
  consistent s → separated s → separated (run evs s).
Proof.
  induction evs as [|e evs IH]; intros s Hc Hs; [done | ].
  simpl. apply IH; [by apply step_consistent | by apply step_separated].
Qed.

Lemma poll_view_cleanup now now' w k :
  now ≤ now' →
  poll_view now' (cleanupExpiredSessions now w) k = poll_view now' w k.
Proof.
  intros Hle. rewrite <- !getOAuthStatus_view. unfold getOAuthStatus.
  by rewrite (cleanup_absorbs now now' w Hle).
Qed.

Lemma poll_view_local now w w' k :
  sessions w' !! k = sessions w !! k →
  (∀ l, sessions w !! k = Some (ERef l) → heap w' l = heap w l) →
  poll_view now w' k = poll_view now w k.
Proof.
  intros Hs Hh. unfold poll_view. rewrite Hs.
  destruct (sessions w !! k) as [[|l]|]; [done | | done].
  simpl. by rewrite (Hh l eq_refl).
Qed.

(** X10. Requests about one state never change what a poll of another
    state answers.  In any system reached from the initial one, take a
    request that is not about [k'] (a start minting another token, a poll,
    a callback with another state, the resumption of a callback parked for
    another state) and a poll of [k'] at a time not before the request's
    clock reading: the poll answers the same whether or not the request
    was served first. *)
Theorem other_states_are_undisturbed
    (evs : list event) (e : event) (k' : string) (now' : Z) :
  event_key e (run evs init) ≠ Some k' →
  (∀ t, event_clock e = Some t → t ≤ now') →
  (getOAuthStatus now' (Some k') (world (step e (run evs init)))).1
  = (getOAuthStatus now' (Some k') (world (run evs init))).1.
Proof.
  intros Hkey Hclock.
  destruct (run_consistent evs init init_consistent) as [Hcons _].
  pose proof (run_separated evs init init_consistent init_separated) as Hsep.
  set (s := run evs init) in *. clearbody s.
  rewrite !getOAuthStatus_view.
  destruct e as [n1 n2 cid tok cfg|now st|now a|i o]; simpl in *.
  - (* startOAuthSession *)
    rewrite <- (poll_view_cleanup n1 now' (world s) k') by auto.
    apply poll_view_local; simpl.
    + rewrite lookup_insert_ne; [done | congruence].
    + intros l Hl. apply heap_set_other.
      apply cleanup_refs in Hl; [lia | apply Hcons].
  - (* getOAuthStatus *)
    rewrite getOAuthStatus_world. apply poll_view_cleanup. auto.
  - (* the synchronous prefix of completeOAuthCallback *)
    rewrite <- (poll_view_cleanup now now' (world s) k') by auto.
    assert (Hw : poll_view now' (callback_enter now a (world s)).2 k'
                 = poll_view now' (cleanupExpiredSessions now (world s)) k').
    { destruct (callback_enter_world now a (world s))
        as [-> | (k & l & r & Hk & Hl & ->)]; [done | ].
      apply poll_view_local.
      - rewrite record_result_sessions; done.
      - intros l' Hl'. simpl. apply heap_set_other. intros ->.
        apply cleanup_lookup_Some in Hl as [Hl _].
        apply cleanup_lookup_Some in Hl' as [Hl' _].
        pose proof (sep_map _ Hsep _ _ _ Hl Hl'). congruence. }
    by destruct (callback_enter now a (world s)) as [[r|k] w1].
  - (* the continuation of a parked callback *)
    destruct (inflight s !! i) as [x|] eqn:Hx; [ | done]. simpl in *.
    destruct (callback_settle_world x o (world s)) as [-> | [r ->]]; [done | ].
    apply poll_view_local; simpl.
    + rewrite lookup_insert_ne; [done | congruence].
    + intros l' Hl'. apply heap_set_other. intros ->.
      assert (Hxin : x ∈ inflight s) by (by eapply list_elem_of_lookup_2).
      pose proof (sep_inflight _ Hsep x k' Hxin Hl'). congruence.
Qed.

Lemma run_snoc evs e s : run (evs ++ [e])%list s = step e (run evs s).
Proof. unfold run. by rewrite fold_left_app. Qed.

Lemma minted_snoc evs e :
  minted (evs ++ [e])%list = (minted evs ++ minted [e])%list.
Proof. unfold minted. by rewrite omap_app. Qed.

Lemma run_keys_minted evs :
  (∀ k e, sessions (world (run evs init)) !! k = Some e →
          k ∈ minted evs ∧ ∃ l, e = ERef l)
  ∧ (∀ x, x ∈ inflight (run evs init) → x_state x ∈ minted evs).
Proof.
  induction evs as [|e evs [IHs IHi]] using rev_ind.
  - split.
    + intros k e. simpl. by rewrite lookup_empty.
    + intros x Hx. by apply not_elem_of_nil in Hx.
  - rewrite run_snoc, minted_snoc. set (s := run evs init) in *. clearbody s.
    assert (Hclean : ∀ now k e0,
      sessions (cleanupExpiredSessions now (world s)) !! k = Some e0 →
      k ∈ (minted evs ++ minted [e])%list ∧ ∃ l, e0 = ERef l).
    { intros now k e0 [Hk _]%cleanup_lookup_Some.
      destruct (IHs k e0 Hk) as [Hin Hl]. split; [ | done].
      apply elem_of_app. by left. }
    assert (Hpark : ∀ x, x ∈ inflight s →
                         x_state x ∈ (minted evs ++ minted [e])%list).
    { intros x Hx. apply elem_of_app. left. by apply IHi. }
    destruct e as [n1 n2 cid tok cfg|now st|now a|i o]; simpl.
    + split; [ | done]. intros k e0. rewrite lookup_insert. case_decide.
      * intros [= <-]. subst k. split; [ | by eexists].
        apply elem_of_app. right. apply list_elem_of_here.
      * intros Hk. destruct (Hclean n1 k e0 Hk) as [Hin Hl]. done.
    + rewrite getOAuthStatus_world. split; [ | done]. apply Hclean.
    + unfold callback_enter.
      destruct (truthy (arg_state a)) eqn:Hst; simpl; [ | split; [apply Hclean | done]].
      destruct (sessions_get _ (arg_state a)) as [|l] eqn:Hg; simpl;
        [split; [apply Hclean | done] | ].
      pose proof (truthy_Some _ Hst) as Hk.
      set (k := param_text (arg_state a)) in *. clearbody k.
      assert (Hl : sessions (cleanupExpiredSessions now (world s)) !! k
                   = Some (ERef l)).
      { apply sessions_get_ref in Hg as (k' & Hk' & Hl). congruence. }
      assert (Hrec : ∀ r k0 e0,
        sessions (record_result (cleanupExpiredSessions now (world s)) k l r)
          !! k0 = Some e0 →
        k0 ∈ (minted evs ++ minted [EvCallback now a])%list ∧ ∃ l0, e0 = ERef l0).
      { intros r k0 e0. rewrite record_result_sessions by done. apply Hclean. }
      destruct (truthy (arg_error a));
        [split; [intros k0 e0 Hk0; by apply (Hrec (mkResult false k) k0 e0)
                | done] | ].
      destruct (truthy (arg_code a)); simpl;
        [ | split; [intros k0 e0 Hk0; by apply (Hrec (mkResult false k) k0 e0)
                   | done]].
      destruct (arg_authManager a) as [|msg]; simpl;
        [ | split; [intros k0 e0 Hk0; by apply (Hrec (mkResult false k) k0 e0)
                   | done]].
      split; [apply Hclean | ].
      intros x [Hx | ->%list_elem_of_singleton]%elem_of_app; [by apply Hpark | ].
      simpl. by destruct (Hclean now k _ Hl).
    + destruct (inflight s !! i) as [x|] eqn:Hx.
      2:{ split; [ | done]. intros k e0 Hk. destruct (IHs k e0 Hk). split; [ | done].
          apply elem_of_app. by left. }
      assert (Hxin : x ∈ inflight s) by (by eapply list_elem_of_lookup_2).
      simpl. split.
      * destruct (callback_settle_world x o (world s)) as [-> | [r ->]].
        -- intros k e0 Hk. destruct (IHs k e0 Hk). split; [ | done].
           apply elem_of_app. by left.
        -- intros k e0. simpl. rewrite lookup_insert. case_decide.
           ++ intros [= <-]. subst k. split; [by apply Hpark | by eexists].
           ++ intros Hk. destruct (IHs k e0 Hk). split; [ | done].
              apply elem_of_app. by left.
      * intros y [Hy | Hy]%elem_of_app; apply Hpark;
          [by eapply subseteq_take | by eapply subseteq_drop].
Qed.

(** X11. In any system reached from the initial one, every key of the
    store is a token minted by an earlier [startOAuthSession], and it is
    bound to a session object, never to a falsy value: polls and callbacks
    for unknown states create no entry. *)
Theorem store_holds_only_started_sessions
    (evs : list event) (k : string) (e : entry) :
  sessions (world (run evs init)) !! k = Some e →
  k ∈ minted evs ∧ ∃ l, e = ERef l.
Proof. apply run_keys_minted. Qed.

End TraceProperties.

Lemma session_objects_are_stable_witness :
  (0 < next_loc (world completed_system))%nat
  ∧ createdAt (heap (world (run sample_history completed_system)) 0%nat)
    = createdAt (heap (world completed_system) 0%nat)
  ∧ redirectUri (heap (world (run sample_history completed_system)) 0%nat)
    = redirectUri (heap (world completed_system) 0%nat).
Proof.
  assert (H1 : (0 < next_loc (world completed_system))%nat)
    by (vm_compute; lia).
  split; [exact H1 | ].
  pose proof (session_objects_are_stable sample_history completed_system 0%nat
                H1) as (Hc & Hu & _).
  split; [exact Hc | exact Hu].
Defined.

Lemma other_states_are_undisturbed_witness :
  event_key other_callback
    (run sample_trace init) ≠ Some "tok"
  ∧ (∀ t, event_clock other_callback = Some t
          → t ≤ 4000)
  ∧ (getOAuthStatus 4000 (Some "tok")
       (world (step other_callback
                 (run sample_trace init)))).1
    = (getOAuthStatus 4000 (Some "tok") (world (run sample_trace init))).1.
Proof.
  assert (H1 : event_key other_callback
                 (run sample_trace init) ≠ Some "tok") by discriminate.
  assert (H2 : ∀ t, event_clock other_callback = Some t → t ≤ 4000).
  { intros t Ht. injection Ht as <-. lia. }
  split; [exact H1 | split; [exact H2 | ]].
  exact (other_states_are_undisturbed sample_trace other_callback "tok" 4000
           H1 H2).
Defined.

Lemma store_holds_only_started_sessions_witness :
  sessions (world (run sample_trace init)) !! "other" = Some (ERef 1%nat)
  ∧ "other" ∈ minted sample_trace.
Proof.
  assert (H1 : sessions (world (run sample_trace init)) !! "other"
               = Some (ERef 1%nat)) by (vm_compute; reflexivity).
  split; [exact H1 | ].
  exact (proj1 (store_holds_only_started_sessions sample_trace "other"
                  (ERef 1%nat) H1)).
Defined.

(** ** What the provider and the browser read *)

Lemma all_chars_append P a b :
  all_chars P (a +:+ b) = all_chars P a && all_chars P b.
Proof.
  induction a as [|x a IH]; [done | ].
  rewrite append_cons. simpl. by rewrite IH, andb_assoc.
Qed.

Lemma form_encode_byte_query_chars x :
  all_chars url_query_char (form_encode_byte x) = true.
Proof. each_byte x; vm_compute; done. Qed.

Lemma form_encode_query_chars s :
  all_chars url_query_char (form_encode s) = true.
Proof.
  induction s as [|x s IH]; [done | ]. simpl.
  by rewrite all_chars_append, form_encode_byte_query_chars, IH.
Qed.

Lemma toString_query_chars params :
  all_chars url_query_char (URLSearchParams_toString params) = true.
Proof.
  induction params as [|[k v] rest IH]; [done | ].
  assert (Hkv : all_chars url_query_char
                  (form_encode k +:+ String "=" (form_encode v)) = true).
  { rewrite all_chars_append. cbn [all_chars].
    by rewrite !form_encode_query_chars. }
  destruct rest as [|p rest].
  - by rewrite toString_single.
  - rewrite toString_cons, all_chars_append, Hkv. cbn [all_chars].
    by rewrite IH.
Qed.

(** X12. Whatever bytes the state, the redirect URI and the client id
    contain, the query string of the authorization URL is made only of
    ASCII letters and digits and the characters [* - . _ + % = &]: no
    space, quote, control character or non-ASCII byte reaches the URL. *)
Theorem buildAuthUrl_query_is_url_safe (clientId st uri : string) :
  ∃ q,
    buildAuthUrl clientId st uri
    = "https://accounts.google.com/o/oauth2/v2/auth?" +:+ q
    ∧ all_chars url_query_char q = true.
Proof.
  exists (URLSearchParams_toString (auth_params clientId st uri)). split.
  - unfold buildAuthUrl, auth_endpoint. by rewrite <- append_assoc.
  - apply toString_query_chars.
Qed.

Section UrlOfSession.
Context `{JsRuntime}.

(** X13. The authorization URL returned by [startOAuthSession] names the
    session it belongs to: read back by the urlencoded parser, its [state]
    parameter is the returned state, under which the store holds the new
    pending session, and its [redirect_uri] parameter is the returned
    redirect URI, which is the one recorded in that session; [client_id] is
    the client id of the OAuth client. *)
Theorem auth_url_names_the_session
    (now1 now2 : Z) (clientId tok : string) (config : jsvalue) (w : World) :
  ∃ q l,
    auth_url (startOAuthSession now1 now2 clientId tok config w).1
    = "https://accounts.google.com/o/oauth2/v2/auth?" +:+ q
    ∧ query_get "state" (parse_query q)
      = Some (state (startOAuthSession now1 now2 clientId tok config w).1)
    ∧ query_get "redirect_uri" (parse_query q)
      = Some (redirect_uri (startOAuthSession now1 now2 clientId tok config w).1)
    ∧ query_get "client_id" (parse_query q) = Some clientId
    ∧ sessions_get (startOAuthSession now1 now2 clientId tok config w).2
        (query_get "state" (parse_query q)) = ERef l
    ∧ heap (startOAuthSession now1 now2 clientId tok config w).2 l
      = mkSession now2
          (default EmptyString (query_get "redirect_uri" (parse_query q)))
          None.
Proof.
  set (uri := redirect_uri (startOAuthSession now1 now2 clientId tok config w).1).
  exists (URLSearchParams_toString (auth_params clientId tok uri)), (next_loc w).
  rewrite parse_query_toString.
  split; [ | repeat split].
  - simpl. unfold buildAuthUrl, auth_endpoint. by rewrite <- append_assoc.
  - simpl. by rewrite lookup_insert_eq.
  - simpl. apply heap_set_same.
Qed.

End UrlOfSession.

Lemma html_text_entity c t :
  html_text (html_entity c +:+ t) = String c (html_text t).
Proof. each_byte c; reflexivity. Qed.

Lemma html_text_escape_chars s : html_text (escape_chars s) = s.
Proof.
  induction s as [|c s IH]; [done | ]. simpl.
  by rewrite html_text_entity, IH.
Qed.

(** X14. What the browser displays is the message itself: decoding the
    character references in [escapeHtml]'s output gives back the argument,
    byte for byte (the empty string for a missing message).  Hence
    [escapeHtml] never merges two different messages, and text that already
    looks like a reference is shown as typed rather than decoded twice. *)
Theorem displayed_message_is_the_message (message : jsparam) :
  html_text (escapeHtml message)
  = match message with
    | Some m => m
    | None => EmptyString
    end.
Proof.
  change (escapeHtml message)
    with (five_replacements (param_text (js_or message (Some EmptyString)))).
  rewrite five_replacements_spec, html_text_escape_chars.
  by destruct message as [[|c m]|].
Qed.

Example displayed_reference_is_not_decoded_twice :
  escapeHtml (Some "a &lt; b") = "a &amp;lt; b"
  ∧ html_text (escapeHtml (Some "a &lt; b")) = "a &lt; b".
Proof. split; vm_compute; reflexivity. Qed.

(** * Properties of the MCP tool-name hint *)

Lemma strip_prefix_Some p s r : strip_prefix p s = Some r → s = p +:+ r.
Proof.
  revert s. induction p as [|c p IH]; intros s; simpl.
  - by intros [= ->].
  - destruct s as [|d s]; [done | ].
    destruct (Ascii.eqb c d) eqn:E; [ | done].
    apply Ascii.eqb_eq in E as <-. intros Hs. by rewrite (IH s Hs).
Qed.

Lemma split_dunder_step c d r :
  split_dunder (String c (String d r))
  = if Ascii.eqb c "_" && Ascii.eqb d "_"
    then EmptyString :: split_dunder r
    else push_char c (split_dunder (String d r)).
Proof. reflexivity. Qed.

Lemma push_char_nonempty c segs : push_char c segs ≠ [].
Proof. by destruct segs. Qed.

Lemma split_dunder_nonempty s : split_dunder s ≠ [].
Proof.
  destruct s as [|c [|d r]]; [done | done | ].
  rewrite split_dunder_step.
  destruct (Ascii.eqb c "_" && Ascii.eqb d "_"); [done | ].
  apply push_char_nonempty.
Qed.

Lemma join_push_char c segs :
  segs ≠ [] → join "__" (push_char c segs) = String c (join "__" segs).
Proof. destruct segs as [|seg [|seg' rest]]; done. Qed.

Lemma join_split_dunder_both s :
  join "__" (split_dunder s) = s
  ∧ ∀ c, join "__" (split_dunder (String c s)) = String c s.
Proof.
  induction s as [|d r [IH1 IH2]].
  - split; [done | ]. intros c. reflexivity.
  - split; [apply IH2 | ]. intros c. rewrite split_dunder_step.
    destruct (Ascii.eqb c "_" && Ascii.eqb d "_") eqn:E.
    + apply andb_true_iff in E as [->%Ascii.eqb_eq ->%Ascii.eqb_eq].
      destruct (split_dunder r) as [|seg rest] eqn:Hs;
        [by apply split_dunder_nonempty in Hs | ].
      change (join "__" (EmptyString :: seg :: rest))
        with (String "_" (String "_" (join "__" (seg :: rest)))).
      by rewrite IH1.
    + rewrite join_push_char by apply split_dunder_nonempty.
      by rewrite (IH2 d).
Qed.

(** Joining the parts with the separator gives the string back. *)
Lemma join_split_dunder s : join "__" (split_dunder s) = s.
Proof. apply join_split_dunder_both. Qed.

Lemma has_dunder_step c d r :
  has_dunder (String c (String d r))
  = (Ascii.eqb c "_" && Ascii.eqb d "_") || has_dunder (String d r).
Proof. reflexivity. Qed.

(** The first part of a split ends where the separator first occurs. *)
Lemma split_dunder_first S rest :
  has_dunder (S +:+ "_") = false →
  split_dunder (S +:+ String "_" (String "_" rest)) = S :: split_dunder rest.
Proof.
  induction S as [|c S IH]; intros Hd; [reflexivity | ].
  destruct S as [|d S'].
  - change (has_dunder (String c (String "_" EmptyString)) = false) in Hd.
    change (split_dunder (String c (String "_" (String "_" rest)))
            = String c EmptyString :: split_dunder rest).
    rewrite has_dunder_step in Hd. apply orb_false_iff in Hd as [Hc _].
    rewrite andb_true_r in Hc.
    rewrite split_dunder_step, Hc. cbn [andb].
    by rewrite split_dunder_step.
  - change (has_dunder (String c (String d (S' +:+ "_"))) = false) in Hd.
    change (split_dunder
              (String c (String d (S' +:+ String "_" (String "_" rest))))
            = String c (String d S') :: split_dunder rest).
    change (has_dunder (String d (S' +:+ "_")) = false →
            split_dunder (String d (S' +:+ String "_" (String "_" rest)))
            = String d S' :: split_dunder rest) in IH.
    rewrite has_dunder_step in Hd. apply orb_false_iff in Hd as [Hc Hd].
    rewrite split_dunder_step, Hc, (IH Hd). reflexivity.
Qed.

Lemma split_dunder_head d r seg segs :
  split_dunder (String d r) = seg :: segs →
  (seg = EmptyString ∧ d = "_"%char) ∨ ∃ seg', seg = String d seg'.
Proof.
  destruct r as [|e r'].
  - intros [= <- <-]. right. by eexists.
  - rewrite split_dunder_step.
    destruct (Ascii.eqb d "_" && Ascii.eqb e "_") eqn:E.
    + apply andb_true_iff in E as [->%Ascii.eqb_eq _].
      intros [= <- _]. by left.
    + unfold push_char. destruct (split_dunder (String e r')) as [|s0 rest0];
        intros [= <- _]; right; by eexists.
Qed.

Lemma split_dunder_first_clean X : ∀ S p ps,
  split_dunder X = S :: p :: ps → has_dunder (S +:+ "_") = false.
Proof.
  induction X as [|c X IH]; intros S p ps; [done | ].
  destruct X as [|d r]; [done | ].
  rewrite split_dunder_step.
  destruct (Ascii.eqb c "_" && Ascii.eqb d "_") eqn:E.
  - by intros [= <- _].
  - destruct (split_dunder (String d r)) as [|seg segs] eqn:Hs;
      [by apply split_dunder_nonempty in Hs | ].
    unfold push_char. intros [= <- ->].
    specialize (IH seg p ps eq_refl).
    destruct (split_dunder_head d r seg (p :: ps) Hs) as [[-> ->] | [seg' ->]].
    + change (has_dunder (String c (String "_" EmptyString)) = false).
      rewrite has_dunder_step. rewrite E. reflexivity.
    + change (has_dunder (String d (seg' +:+ "_")) = false) in IH.
      change (has_dunder (String c (String d (seg' +:+ "_"))) = false).
      rewrite has_dunder_step, E. exact IH.
Qed.

Lemma split_dunder_mcp X :
  split_dunder ("mcp__" +:+ X) = "mcp" :: split_dunder X.
Proof. reflexivity. Qed.

(** Which tools contribute a server, and which: the name is [mcp__], a
    non-empty server part in which the separator does not occur, nor
    straddles its end, then the separator and anything. *)
Lemma tool_server_Some tool S :
  tool_server tool = Some S ↔
  S ≠ EmptyString ∧ has_dunder (S +:+ "_") = false
  ∧ ∃ rest, tool = Some ("mcp__" +:+ S +:+ "__" +:+ rest).
Proof.
  split.
  - destruct tool as [name|]; [ | done]. unfold tool_server, startsWith.
    destruct (strip_prefix "mcp__" name) as [X|] eqn:Hp; [ | done].
    apply strip_prefix_Some in Hp as ->. rewrite split_dunder_mcp.
    destruct (split_dunder X) as [|p1 [|p2 ps]] eqn:Hs; [done | done | ].
    change (String.eqb "mcp" "mcp") with true. cbn [andb].
    destruct p1 as [|c p1]; [done | ]. intros [= <-].
    split; [done | ].
    split; [by eapply split_dunder_first_clean | ].
    exists (join "__" (p2 :: ps)).
    rewrite <- (join_split_dunder X) at 1. rewrite Hs.
    reflexivity.
  - intros (HS & Hd & rest & ->). unfold tool_server, startsWith.
    rewrite strip_prefix_append, split_dunder_mcp.
    change ("__" +:+ rest) with (String "_" (String "_" rest)).
    rewrite (split_dunder_first S rest Hd).
    destruct (split_dunder rest) as [|p2 ps] eqn:Hs;
      [by apply split_dunder_nonempty in Hs | ].
    by destruct S.
Qed.

Lemma existsb_eqb_elem x (l : list string) :
  existsb (String.eqb x) l = true ↔ x ∈ l.
Proof.
  induction l as [|y l IH]; simpl.
  - split; [done | by intros ?%not_elem_of_nil].
  - rewrite orb_true_iff, IH, String.eqb_eq, elem_of_cons. done.
Qed.

Lemma set_add_elem x y l : y ∈ set_add x l ↔ y = x ∨ y ∈ l.
Proof.
  unfold set_add. destruct (existsb (String.eqb x) l) eqn:E.
  - apply existsb_eqb_elem in E. split; [auto | intros [-> | Hy]; done].
  - rewrite elem_of_app, list_elem_of_singleton. tauto.
Qed.

Lemma set_add_NoDup x l : NoDup l → NoDup (set_add x l).
Proof.
  intros Hl. unfold set_add. destruct (existsb (String.eqb x) l) eqn:E; [done | ].
  apply NoDup_app. split; [done | ]. split; [ | apply NoDup_singleton].
  intros y Hy ->%list_elem_of_singleton.
  apply existsb_eqb_elem in Hy. congruence.
Qed.

Lemma collect_from tools : ∀ acc S,
  S ∈ fold_left (λ servers tool,
                   match tool_server tool with
                   | Some server => set_add server servers
                   | None => servers
                   end) tools acc
  ↔ S ∈ acc ∨ ∃ tool, tool ∈ tools ∧ tool_server tool = Some S.
Proof.
  induction tools as [|t tools IH]; intros acc S; simpl.
  - split; [auto | ]. intros [Ha | (tool & Hin & _)]; [done | ].
    by apply not_elem_of_nil in Hin.
  - rewrite IH. destruct (tool_server t) as [server|] eqn:Ht.
    + rewrite set_add_elem. split.
      * intros [[-> | Ha] | (tool & Hin & Hs)].
        -- right. exists t. split; [apply list_elem_of_here | done].
        -- by left.
        -- right. exists tool. split; [by apply list_elem_of_further | done].
      * intros [Ha | (tool & Hin & Hs)]; [auto | ].
        apply elem_of_cons in Hin as [-> | Hin].
        -- left. left. congruence.
        -- right. eauto.
    + split.
      * intros [Ha | (tool & Hin & Hs)]; [by left | ].
        right. exists tool. split; [by apply list_elem_of_further | done].
      * intros [Ha | (tool & Hin & Hs)]; [by left | ].
        apply elem_of_cons in Hin as [-> | Hin]; [congruence | eauto].
Qed.

Lemma collect_NoDup tools : ∀ acc,
  NoDup acc →
  NoDup (fold_left (λ servers tool,
                      match tool_server tool with
                      | Some server => set_add server servers
                      | None => servers
                      end) tools acc).
Proof.
  induction tools as [|t tools IH]; intros acc Hacc; [done | ].
  simpl. apply IH. destruct (tool_server t); [by apply set_add_NoDup | done].
Qed.

Lemma insert_sorted_perm x l : insert_sorted x l ≡ₚ x :: l.
Proof.
  induction l as [|y l IH]; [done | ]. simpl.
  destruct (utf16_ltb y x); [ | done].
  rewrite IH. apply Permutation_swap.
Qed.

Lemma sort_strings_perm l : sort_strings l ≡ₚ l.
Proof.
  induction l as [|x l IH]; [done | ]. simpl.
  by rewrite insert_sorted_perm, IH.
Qed.

Lemma append_inv_head (p a b : string) : p +:+ a = p +:+ b → a = b.
Proof.
  induction p as [|c p IH]; [done | ].
  rewrite !append_cons. intros [= Hp]. by apply IH.
Qed.

Lemma length_append (a b : string) :
  String.length (a +:+ b) = (String.length a + String.length b)%nat.
Proof.
  induction a as [|c a IH]; [done | ].
  rewrite append_cons. simpl. by rewrite IH.
Qed.

Lemma append_inv_tail (a b t : string) : a +:+ t = b +:+ t → a = b.
Proof.
  revert b. induction a as [|c a IH]; intros b Hab.
  - destruct b as [|d b]; [done | ].
    apply (f_equal String.length) in Hab.
    rewrite append_nil, append_cons in Hab. simpl in Hab.
    rewrite length_append in Hab. lia.
  - destruct b as [|d b].
    + apply (f_equal String.length) in Hab.
      rewrite append_nil, append_cons in Hab. simpl in Hab.
      rewrite length_append in Hab. lia.
    + rewrite !append_cons in Hab. injection Hab as -> Hab.
      by rewrite (IH b Hab).
Qed.

Lemma server_pattern_inj S S' :
  server_pattern S = server_pattern S' → S = S'.
Proof.
  unfold server_pattern. intros Hp%append_inv_head. by eapply append_inv_tail.
Qed.

(** X15. The hint lists exactly the servers of the request: a pattern is in
    the list if and only if it is [mcp__S__*] for a tool whose name is
    [mcp__], a non-empty server part [S], a double underscore and anything,
    where no double underscore occurs in [S] or straddles its end.  Tools
    without a string name, tools of other prefixes and names without a
    server part contribute nothing. *)
Theorem hint_lists_exactly_the_servers
    (tools : list (option string)) (p : string) :
  p ∈ mcp_patterns (Some tools) ↔
  ∃ S rest,
    Some ("mcp__" +:+ S +:+ "__" +:+ rest) ∈ tools
    ∧ S ≠ EmptyString
    ∧ has_dunder (S +:+ "_") = false
    ∧ p = "mcp__" +:+ S +:+ "__*".
Proof.
  unfold mcp_patterns. change (default [] (Some tools)) with tools.
  rewrite list_elem_of_fmap.
  setoid_rewrite sort_strings_perm. unfold collect_servers.
  setoid_rewrite collect_from. split.
  - intros (S & -> & [Hnil | (tool & Hin & Hs)]);
      [by apply not_elem_of_nil in Hnil | ].
    apply tool_server_Some in Hs as (HS & Hd & rest & ->).
    exists S, rest. done.
  - intros (S & rest & Hin & HS & Hd & ->). exists S. split; [done | ].
    right. exists (Some ("mcp__" +:+ S +:+ "__" +:+ rest)). split; [done | ].
    apply tool_server_Some. eauto.
Qed.

(** X16. Each server is listed once, however many of its tools the request
    carries and in whatever order. *)
Theorem hint_lists_each_server_once (claudeReq : mcp_tools) :
  NoDup (mcp_patterns claudeReq).
Proof.
  unfold mcp_patterns. apply NoDup_fmap_2.
  - intros S S'. apply server_pattern_inj.
  - rewrite sort_strings_perm. unfold collect_servers.
    apply collect_NoDup. constructor.
Qed.

Lemma join_length sep p ps :
  (String.length p ≤ String.length (join sep (p :: ps)))%nat.
Proof.
  destruct ps as [|q ps]; [done | ].
  change (join sep (p :: q :: ps)) with (p +:+ sep +:+ join sep (q :: ps)).
  rewrite length_append. lia.
Qed.

Lemma no_mcp_tool_no_server (tools : list (option string)) :
  hasMcpTools (Some tools) = false →
  ∀ tool, tool ∈ tools → tool_server tool = None.
Proof.
  simpl. induction tools as [|t tools IH]; intros Hno tool Hin.
  - by apply not_elem_of_nil in Hin.
  - simpl in Hno. apply orb_false_iff in Hno as [Ht Hrest].
    apply elem_of_cons in Hin as [-> | Hin]; [ | by apply IH].
    destruct t as [name|]; [ | done]. unfold tool_server. by rewrite Ht.
Qed.

(** X17. The hint is the generic [mcp__*] exactly when no server is listed,
    and otherwise the listed patterns joined by the ideographic comma,
    which is never the generic text.  A request for which [hasMcpTools] is
    false lists no server; one for which it is true may still list none
    (a tool named [mcp__x] has no server part). *)
Theorem generic_hint_iff_no_server (claudeReq : mcp_tools) :
  (buildMcpToolNamesForHint claudeReq = "mcp__*"
   ↔ mcp_patterns claudeReq = [])
  ∧ (mcp_patterns claudeReq ≠ [] →
     buildMcpToolNamesForHint claudeReq = join "、" (mcp_patterns claudeReq))
  ∧ (hasMcpTools claudeReq = false → mcp_patterns claudeReq = []).
Proof.
  split; [ | split].
  - unfold buildMcpToolNamesForHint.
    destruct (mcp_patterns claudeReq) as [|p ps] eqn:Hp; [done | ].
    split; [ | done]. intros Hj. exfalso.
    assert (Hin : p ∈ mcp_patterns claudeReq)
      by (rewrite Hp; apply list_elem_of_here).
    unfold mcp_patterns in Hin. apply list_elem_of_fmap in Hin as (S & -> & _).
    pose proof (join_length "、" (server_pattern S) ps) as Hlen.
    rewrite Hj in Hlen. unfold server_pattern in Hlen.
    rewrite !length_append in Hlen. simpl in Hlen. lia.
  - unfold buildMcpToolNamesForHint.
    by destruct (mcp_patterns claudeReq).
  - intros Hno. destruct claudeReq as [tools|]; [ | done].
    unfold mcp_patterns. change (default [] (Some tools)) with tools.
    destruct (sort_strings (collect_servers tools)) as [|S rest] eqn:Hs; [done | ].
    exfalso.
    assert (Hin : S ∈ collect_servers tools).
    { rewrite <- sort_strings_perm, Hs. apply list_elem_of_here. }
    unfold collect_servers in Hin.
    apply collect_from in Hin as [Hnil | (tool & Hin & Ht)];
      [by apply not_elem_of_nil in Hnil | ].
    by rewrite (no_mcp_tool_no_server tools Hno tool Hin) in Ht.
Qed.

Example hint_of_sample_request :
  buildMcpToolNamesForHint sample_request = "mcp__files__*、mcp__github__*"
  ∧ hasMcpTools (Some [Some "mcp__orphan"]) = true
  ∧ buildMcpToolNamesForHint (Some [Some "mcp__orphan"]) = "mcp__*"
  ∧ buildMcpToolNamesForHint (Some [Some "mcp__a___b"]) = "mcp__a__*".
Proof. repeat split; vm_compute; reflexivity. Qed.

(** ** Retention of request logs *)

Section LogRetentionProperties.
Context `{JsArith}.

Lemma scan_entries_spec (fs : LogDir) (cutoff : number) (entries : list Dirent) :
  ∀ count removed,
  scan_entries fs cutoff entries count removed
  = (mkCount
       (deleted count + length (filter (is_removable fs cutoff) entries))
       (scanned count + length (filter is_log_file entries)),
     (removed ++ map d_name (filter (is_removable fs cutoff) entries))%list).
Proof.
  induction entries as [|entry rest IH]; intros [d s] removed.
  - simpl. by rewrite !Nat.add_0_r, app_nil_r.
  - assert (Hlogfile : is_log_file entry = false →
              filter is_log_file (entry :: rest) = filter is_log_file rest
              ∧ filter (is_removable fs cutoff) (entry :: rest)
                = filter (is_removable fs cutoff) rest).
    { intros Hn. split; apply filter_cons_False; unfold is_removable;
        rewrite Hn; simpl; tauto. }
    assert (Hkept : is_log_file entry = true →
              is_removable fs cutoff entry = false →
              filter is_log_file (entry :: rest)
              = entry :: filter is_log_file rest
              ∧ filter (is_removable fs cutoff) (entry :: rest)
                = filter (is_removable fs cutoff) rest).
    { intros Hy Hn. split;
        [apply filter_cons_True; by rewrite Hy
        | apply filter_cons_False; rewrite Hn; simpl; tauto]. }
    assert (Hgone : is_removable fs cutoff entry = true →
              filter is_log_file (entry :: rest)
              = entry :: filter is_log_file rest
              ∧ filter (is_removable fs cutoff) (entry :: rest)
                = entry :: filter (is_removable fs cutoff) rest).
    { intros Hy. split; apply filter_cons_True; [ | by rewrite Hy].
      unfold is_removable in Hy. by destruct (is_log_file entry). }
    revert Hlogfile Hkept Hgone. unfold is_removable, is_log_file.
    cbn [scan_entries].
    destruct (d_isFile entry); cbn [negb andb].
    2:{ intros [-> ->] _ _; [done | ]. apply IH. }
    destruct (endsWith ".log" (d_name entry)); cbn [negb andb].
    2:{ intros [-> ->] _ _; [done | ]. apply IH. }
    intros _.
    destruct (stat_mtimeMs fs (d_name entry)) as [m|]; cbn [negb andb].
    2:{ intros [-> ->] _; [done | done | ]. rewrite IH. simpl.
        by rewrite ?Nat.add_succ_r. }
    destruct (Number_ge m cutoff); cbn [negb andb].
    { intros [-> ->] _; [done | done | ]. rewrite IH. simpl.
      by rewrite ?Nat.add_succ_r. }
    destruct (unlink_ok fs (d_name entry)).
    + intros _ [-> ->]; [done | ]. rewrite IH. simpl.
      rewrite <- app_assoc. simpl. by rewrite ?Nat.add_succ_r.
    + intros [-> ->] _; [done | done | ]. rewrite IH. simpl.
      by rewrite ?Nat.add_succ_r.
Qed.

(** X18. With retention enabled and a readable directory, the files
    removed are exactly the entries that are regular files, have a name
    ending in [.log], whose [stat] succeeds with a modification time that is
    not [>=] the cutoff and whose [unlink] succeeds, in directory order;
    [deleted] is their number, [scanned] is the number of regular [.log]
    files, and [deleted] never exceeds [scanned]. *)
Theorem cleanupOldLogs_removes_old_logs
    (now retentionDays : number) (fs : LogDir) (entries : list Dirent) :
  Number_isFinite retentionDays = true →
  Number_le retentionDays (number_literal 0) = false →
  readdir fs = Some entries →
  (cleanupOldLogs now fs retentionDays).2
  = map d_name (filter (is_removable fs (cutoffMs now retentionDays)) entries)
  ∧ deleted (cleanupOldLogs now fs retentionDays).1
    = length (cleanupOldLogs now fs retentionDays).2
  ∧ scanned (cleanupOldLogs now fs retentionDays).1
    = length (filter is_log_file entries)
  ∧ (deleted (cleanupOldLogs now fs retentionDays).1
     ≤ scanned (cleanupOldLogs now fs retentionDays).1)%nat.
Proof.
  intros Hfin Hpos Hdir. unfold cleanupOldLogs.
  rewrite Hfin, Hpos, Hdir. cbn [negb orb].
  rewrite scan_entries_spec. cbn [fst snd deleted scanned app].
  rewrite length_map. repeat split.
  clear. induction entries as [|entry rest IH]; [done | ].
  rewrite !filter_cons.
  destruct (decide (is_removable fs (cutoffMs now retentionDays) entry))
    as [Hy|Hn].
  - rewrite decide_True; [simpl; lia | ].
    unfold is_removable in Hy. by destruct (is_log_file entry).
  - case_decide; simpl; lia.
Qed.

(** X19. A file is removed only if the listing names it as a regular file
    ending in [.log] whose modification time was read and is not [>=] the
    cutoff: files that are recent, are not logs, are directories or cannot
    be inspected are never unlinked. *)
Theorem cleanupOldLogs_spares_the_rest
    (now retentionDays : number) (fs : LogDir) (name : string) :
  name ∈ (cleanupOldLogs now fs retentionDays).2 →
  ∃ entries mtimeMs,
    readdir fs = Some entries
    ∧ mkDirent name true ∈ entries
    ∧ endsWith ".log" name = true
    ∧ stat_mtimeMs fs name = Some mtimeMs
    ∧ Number_ge mtimeMs (cutoffMs now retentionDays) = false
    ∧ Number_isFinite retentionDays = true
    ∧ Number_le retentionDays (number_literal 0) = false.
Proof.
  unfold cleanupOldLogs.
  destruct (Number_isFinite retentionDays); cbn [negb orb];
    [ | by intros ?%elem_of_nil].
  destruct (Number_le retentionDays (number_literal 0));
    [by intros ?%elem_of_nil | ].
  destruct (readdir fs) as [entries|]; [ | by intros ?%elem_of_nil].
  rewrite scan_entries_spec. cbn [snd app].
  intros ([n f] & -> & [Hrem Hin]%list_elem_of_filter)%list_elem_of_fmap.
  unfold is_removable, is_log_file in Hrem. simpl in Hrem.
  destruct f; [ | done].
  destruct (endsWith ".log" n) eqn:Hlog; [ | done].
  destruct (stat_mtimeMs fs n) as [m|] eqn:Hstat; [ | done].
  destruct (Number_ge m (cutoffMs now retentionDays)) eqn:Hge; [done | ].
  exists entries, m. simpl. by rewrite Hlog.
Qed.


End LogRetentionProperties.

Lemma cleanupOldLogs_removes_old_logs_witness :
  @Number_isFinite IntegerHost.host (IntegerHost.Int 3) = true
  ∧ @Number_le _ IntegerArith.arith (IntegerHost.Int 3)
      (@number_literal IntegerHost.host 0) = false
  ∧ @readdir IntegerHost.host sample_logdir = Some sample_entries
  ∧ (@cleanupOldLogs _ IntegerArith.arith (IntegerHost.Int 867600000)
       sample_logdir (IntegerHost.Int 3)).2
    = ["old.log"].
Proof.
  assert (H1 : @Number_isFinite IntegerHost.host (IntegerHost.Int 3) = true)
    by reflexivity.
  assert (H2 : @Number_le _ IntegerArith.arith (IntegerHost.Int 3)
                 (@number_literal IntegerHost.host 0) = false) by reflexivity.
  assert (H3 : @readdir IntegerHost.host sample_logdir = Some sample_entries)
    by reflexivity.
  repeat (split; [assumption | ]).
  exact (proj1 (@cleanupOldLogs_removes_old_logs _ IntegerArith.arith
                  (IntegerHost.Int 867600000) (IntegerHost.Int 3)
                  sample_logdir sample_entries H1 H2 H3)).
Defined.

Lemma cleanupOldLogs_spares_the_rest_witness :
  "old.log" ∈ (@cleanupOldLogs _ IntegerArith.arith (IntegerHost.Int 867600000)
                 sample_logdir (IntegerHost.Int 3)).2
  ∧ ∃ entries mtimeMs,
      @readdir IntegerHost.host sample_logdir = Some entries
      ∧ mkDirent "old.log" true ∈ entries
      ∧ endsWith ".log" "old.log" = true
      ∧ @stat_mtimeMs IntegerHost.host sample_logdir "old.log" = Some mtimeMs
      ∧ @Number_ge _ IntegerArith.arith mtimeMs
          (@cutoffMs _ IntegerArith.arith (IntegerHost.Int 867600000)
             (IntegerHost.Int 3)) = false
      ∧ @Number_isFinite IntegerHost.host (IntegerHost.Int 3) = true
      ∧ @Number_le _ IntegerArith.arith (IntegerHost.Int 3)
          (@number_literal IntegerHost.host 0) = false.
Proof.
  assert (H1 : "old.log" ∈ (@cleanupOldLogs _ IntegerArith.arith
                              (IntegerHost.Int 867600000)
                              sample_logdir (IntegerHost.Int 3)).2)
    by (vm_compute; apply list_elem_of_here).
  split; [exact H1 | ].
  exact (@cleanupOldLogs_spares_the_rest _ IntegerArith.arith
           (IntegerHost.Int 867600000) (IntegerHost.Int 3) sample_logdir
           "old.log" H1).
Defined.


Example cleanup_of_sample_directory :
  @cleanupOldLogs _ IntegerArith.arith (IntegerHost.Int 867600000)
    sample_logdir (IntegerHost.Int 3)
  = (mkCount 1 4, ["old.log"]).
Proof. vm_compute. reflexivity. Qed.
